(** * sansshell: the RPC authorization layer (package rpcauth)

    A shallow embedding of [auth/opa/rpcauth/rpcauth.go]: the [Authorizer],
    its [Eval] operation and the four gRPC interceptor adapters built on it.

    Conventions of the embedding.
    - A Go [error] return is an [option error]; [None] is Go's [nil].
    - A hook receives a pointer to the input and may write through it; here
      a hook returns the input as it leaves it, next to its error, and the
      loop of [Eval] threads that value to the next hook.
    - Calls made to collaborators (hooks, the policy, handlers, the wrapped
      streams) are recorded, in order, in a list of [Call]s returned next to
      the result, so that "is never invoked" and "in this order" are
      statements about that list.
    - Hooks and the policy evaluator are functions of the context and the
      input they are handed: the authorizer holds them fixed, and whatever
      state of their own they may keep is outside this layer.
    - The [logr] calls of [Eval] only emit diagnostics: they read the input
      and influence neither the control flow nor any returned value, and are
      left out. *)

From Stdlib Require Import List String Bool Arith Lia.
Import ListNotations.
Open Scope string_scope.

Set Implicit Arguments.

(** ** google.golang.org/grpc/codes *)

Module codes.

Inductive Code : Type :=
| OK | Canceled | Unknown | InvalidArgument | DeadlineExceeded | NotFound
| AlreadyExists | PermissionDenied | ResourceExhausted | FailedPrecondition
| Aborted | OutOfRange | Unimplemented | Internal | Unavailable | DataLoss
| Unauthenticated.

(** [Code.String]. *)
Definition String (c : Code) : string :=
  match c with
  | OK => "OK" | Canceled => "Canceled" | Unknown => "Unknown"
  | InvalidArgument => "InvalidArgument"
  | DeadlineExceeded => "DeadlineExceeded" | NotFound => "NotFound"
  | AlreadyExists => "AlreadyExists"
  | PermissionDenied => "PermissionDenied"
  | ResourceExhausted => "ResourceExhausted"
  | FailedPrecondition => "FailedPrecondition" | Aborted => "Aborted"
  | OutOfRange => "OutOfRange" | Unimplemented => "Unimplemented"
  | Internal => "Internal" | Unavailable => "Unavailable"
  | DataLoss => "DataLoss" | Unauthenticated => "Unauthenticated"
  end.

End codes.

(** ** Go errors

    An error value either carries a gRPC status (its dynamic type has a
    [GRPCStatus] method) or it does not. *)

Inductive error : Type :=
| StatusErr (c : codes.Code) (msg : string)
| PlainErr (msg : string).

(** The [Error()] method, which is what the verb [%v] prints. *)
Definition ErrorString (e : error) : string :=
  match e with
  | StatusErr c msg =>
      "rpc error: code = " ++ codes.String c ++ " desc = " ++ msg
  | PlainErr msg => msg
  end.

(** ** google.golang.org/grpc/status *)

Module status.

(** [status.Error]: the error of a status, [nil] for the code [OK]. *)
Definition Error (c : codes.Code) (msg : string) : option error :=
  match c with
  | codes.OK => None
  | _ => Some (StatusErr c msg)
  end.

(** [status.Errorf]; the formatted text is built at the call site. *)
Definition Errorf (c : codes.Code) (formatted : string) : option error :=
  Error c formatted.

(** [status.FromError] on a non-nil error: the status (code and message)
    and whether the error carried one. *)
Definition FromError (e : error) : (codes.Code * string) * bool :=
  match e with
  | StatusErr c msg => ((c, msg), true)
  | PlainErr msg => ((codes.Unknown, msg), false)
  end.

(** [status.Code] of a possibly nil error. *)
Definition Code (e : option error) : codes.Code :=
  match e with
  | None => codes.OK
  | Some e => fst (fst (FromError e))
  end.

End status.

(** ** Contexts, messages and the policy input *)

(** What the layer reads from a [context.Context]: the attributes of the
    call that the input builder copies into the policy input. *)
Record Context : Type := {
  ctxPeer : option string;
  ctxMetadata : list (string * string)
}.

(** A value implementing [proto.Message]: its message name and the outcome
    of converting it to the structured (JSON) form, either the text or the
    reason the conversion fails. *)
Record ProtoMessage : Type := {
  msgName : string;
  msgStructured : string + string
}.

(** A value of type [interface{}]: a proto message, or a value of some other
    dynamic type, of which only the type name (the verb [%T]) matters. *)
Inductive Value : Type :=
| VProto (m : ProtoMessage)
| VOther (typeName : string).

(** The type assertion [req.(proto.Message)]. *)
Definition asProtoMessage (req : Value) : option ProtoMessage :=
  match req with
  | VProto m => Some m
  | VOther _ => None
  end.

Definition typeNameOf (req : Value) : string :=
  match req with
  | VProto m => "*" ++ msgName m
  | VOther t => t
  end.

(** Modelled from the spec: the declaration of [RPCAuthInput] is not among
    the sources.  The spec gives its fields: the full method, the message
    payload in structured form, and optional attributes derived from the
    context (peer identity, transport metadata). *)
Record RPCAuthInput : Type := {
  Method : string;
  MessageType : string;
  Message : string;
  Peer : option string;
  Metadata : list (string * string)
}.

(** Modelled from the spec: the function [NewRPCAuthInput] is not among the
    sources.  Per the spec it builds the input from the method, the message
    and the context, fails with an Internal-classified error when the
    message cannot be converted to the structured form, and has no other
    effect. *)
Definition NewRPCAuthInput (ctx : Context) (method : string)
    (req : ProtoMessage) : RPCAuthInput + error :=
  match msgStructured req with
  | inl json =>
      inl {| Method := method;
             MessageType := msgName req;
             Message := json;
             Peer := ctxPeer ctx;
             Metadata := ctxMetadata ctx |}
  | inr why => inr (StatusErr codes.Internal why)
  end.

(** ** The authorizer *)

(** [RPCAuthzHook]: the hook sees the input and leaves it possibly changed. *)
Record RPCAuthzHook : Type := {
  Hook : Context -> RPCAuthInput -> RPCAuthInput * option error
}.

Module opa.

(** [opa.AuthzPolicy], through the one method the authorizer calls. *)
Record AuthzPolicy : Type := {
  Eval : Context -> RPCAuthInput -> bool * option error
}.

End opa.

Record Authorizer : Type := {
  policy : opa.AuthzPolicy;
  hooks : list RPCAuthzHook
}.

(** [New]. *)
Definition New (p : opa.AuthzPolicy) (authzHooks : list RPCAuthzHook)
    : Authorizer :=
  {| policy := p; hooks := authzHooks |}.

(** Calls observed during an operation of the layer.  [CallRecv] also
    records what the underlying receive returned. *)
Inductive Call : Type :=
| CallEval (input : option RPCAuthInput)
| CallHook (index : nat) (seen : RPCAuthInput)
| CallPolicy (seen : RPCAuthInput)
| CallHandler (req : Value)
| CallInvoker (method : string) (req : Value)
| CallStreamer (method : string)
| CallStreamHandler
| CallSend (req : Value)
| CallRecv (dest filled : Value) (result : option error).

(** The [for _, hook := range g.hooks] loop of [Eval], from the hook of
    index [k] on.  The error component is [Some] exactly when the loop
    returns from [Eval]. *)
Fixpoint runHooks (ctx : Context) (k : nat) (hs : list RPCAuthzHook)
    (input : RPCAuthInput) : RPCAuthInput * option error * list Call :=
  match hs with
  | [] => (input, None, [])
  | hook :: rest =>
      let (input1, r) := Hook hook ctx input in
      match r with
      | Some err =>
          if snd (status.FromError err)
          then (input1, Some err, [CallHook k input])
          else (input1,
                status.Errorf codes.Internal
                  ("authz hook error: " ++ ErrorString err),
                [CallHook k input])
      | None =>
          let '(input2, e, t) := runHooks ctx (S k) rest input1 in
          (input2, e, CallHook k input :: t)
      end
  end.

Record EvalOut : Type := {
  evalErr : option error;
  evalInput : option RPCAuthInput;
  evalCalls : list Call
}.

(** [Authorizer.Eval]. *)
Definition Eval (g : Authorizer) (ctx : Context)
    (input : option RPCAuthInput) : EvalOut :=
  match input with
  | None =>
      {| evalErr :=
           status.Error codes.InvalidArgument "policy input cannot be nil";
         evalInput := None;
         evalCalls := [CallEval None] |}
  | Some i =>
      let '(i1, e, t) := runHooks ctx 0 (hooks g) i in
      match e with
      | Some _ =>
          {| evalErr := e; evalInput := Some i1;
             evalCalls := CallEval input :: t |}
      | None =>
          let (allowed, perr) := opa.Eval (policy g) ctx i1 in
          let calls := CallEval input :: t ++ [CallPolicy i1] in
          match perr with
          | Some err =>
              {| evalErr :=
                   status.Errorf codes.Internal
                     ("authz policy evaluation error: " ++ ErrorString err);
                 evalInput := Some i1; evalCalls := calls |}
          | None =>
              if negb allowed
              then {| evalErr :=
                        status.Errorf codes.PermissionDenied
                          "OPA policy does not permit this request";
                      evalInput := Some i1; evalCalls := calls |}
              else {| evalErr := None; evalInput := Some i1;
                      evalCalls := calls |}
          end
      end
  end.

(** ** Unary interceptors *)

Module grpc.

Record UnaryServerInfo : Type := { FullMethod : string }.

(** [grpc.UnaryHandler]: the response and the error. *)
Definition UnaryHandler : Type :=
  Context -> Value -> option Value * option error.

(** [grpc.UnaryInvoker]: the reply as the invoker leaves it and the
    error. *)
Definition UnaryInvoker : Type :=
  Context -> string -> Value -> Value -> Value * option error.

End grpc.

Definition notProtoMessage (req : Value) : option error :=
  status.Errorf codes.Internal
    ("unable to authorize request of type " ++ typeNameOf req
       ++ " which is not proto.Message").

(** [Authorizer.Authorize], the [grpc.UnaryServerInterceptor]. *)
Definition Authorize (g : Authorizer) (ctx : Context) (req : Value)
    (info : grpc.UnaryServerInfo) (handler : grpc.UnaryHandler)
    : (option Value * option error) * list Call :=
  match asProtoMessage req with
  | None => ((None, notProtoMessage req), [])
  | Some msg =>
      match NewRPCAuthInput ctx (grpc.FullMethod info) msg with
      | inr err =>
          ((None,
            status.Errorf codes.Internal
              ("unable to create auth input: " ++ ErrorString err)), [])
      | inl authInput =>
          let r := Eval g ctx (Some authInput) in
          match evalErr r with
          | Some err => ((None, Some err), evalCalls r)
          | None => (handler ctx req, (evalCalls r ++ [CallHandler req])%list)
          end
      end
  end.

(** [Authorizer.AuthorizeClient], the [grpc.UnaryClientInterceptor]. *)
Definition AuthorizeClient (g : Authorizer) (ctx : Context) (method : string)
    (req reply : Value) (invoker : grpc.UnaryInvoker)
    : (Value * option error) * list Call :=
  match asProtoMessage req with
  | None => ((reply, notProtoMessage req), [])
  | Some msg =>
      match NewRPCAuthInput ctx method msg with
      | inr err =>
          ((reply,
            status.Errorf codes.Internal
              ("unable to create auth input: " ++ ErrorString err)), [])
      | inl authInput =>
          let r := Eval g ctx (Some authInput) in
          match evalErr r with
          | Some err => ((reply, Some err), evalCalls r)
          | None =>
              (invoker ctx method req reply,
               (evalCalls r ++ [CallInvoker method req])%list)
          end
      end
  end.

(** ** Stream interceptors

    The streams being wrapped belong to the transport; [Wire] is whatever
    state they act on. *)

Section Streams.

Variable Wire : Type.

(** [grpc.ClientStream], through the methods that matter here; the other
    methods of the interface are delegated like [CloseSend]. *)
Record ClientStream : Type := {
  csContext : Context;
  csSendMsg : Value -> Wire -> option error * Wire;
  csCloseSend : Wire -> option error * Wire
}.

(** [grpc.ServerStream]; [RecvMsg] returns the destination as filled. *)
Record ServerStream : Type := {
  ssContext : Context;
  ssSendMsg : Value -> Wire -> option error * Wire;
  ssRecvMsg : Value -> Wire -> (Value * option error) * Wire
}.

Record StreamServerInfo : Type := { StreamFullMethod : string }.

(** [grpc.Streamer]: a stream or an error. *)
Definition Streamer : Type :=
  Context -> string -> Wire -> (ClientStream + error) * Wire.

Record wrappedClientStream : Type := {
  wcsClientStream : ClientStream;
  wcsMethod : string;
  wcsAuthz : Authorizer
}.

(** [Authorizer.AuthorizeClientStream]. *)
Definition AuthorizeClientStream (g : Authorizer) (ctx : Context)
    (method : string) (streamer : Streamer) (w : Wire)
    : ((option wrappedClientStream * option error) * Wire) * list Call :=
  let (r, w1) := streamer ctx method w in
  match r with
  | inr err =>
      ((None,
        status.Errorf codes.Internal
          ("can't create clientStream: " ++ ErrorString err), w1),
       [CallStreamer method])
  | inl clientStream =>
      ((Some {| wcsClientStream := clientStream;
                wcsMethod := method;
                wcsAuthz := g |}, None, w1),
       [CallStreamer method])
  end.

(** [wrappedClientStream.SendMsg]. *)
Definition SendMsg (e : wrappedClientStream) (req : Value) (w : Wire)
    : (option error * Wire) * list Call :=
  let ctx := csContext (wcsClientStream e) in
  match asProtoMessage req with
  | None => ((notProtoMessage req, w), [])
  | Some msg =>
      match NewRPCAuthInput ctx (wcsMethod e) msg with
      | inr err => ((Some err, w), [])
      | inl authInput =>
          let r := Eval (wcsAuthz e) ctx (Some authInput) in
          match evalErr r with
          | Some err => ((Some err, w), evalCalls r)
          | None =>
              (csSendMsg (wcsClientStream e) req w,
               (evalCalls r ++ [CallSend req])%list)
          end
      end
  end.

(** [CloseSend] is promoted from the embedded [grpc.ClientStream]. *)
Definition CloseSend (e : wrappedClientStream) (w : Wire)
    : option error * Wire :=
  csCloseSend (wcsClientStream e) w.

(** A caller that hands the messages [reqs] to one wrapped stream, one
    [SendMsg] after the other, whatever the earlier calls returned. *)
Fixpoint SendMsgs (e : wrappedClientStream) (reqs : list Value) (w : Wire)
    : (list (option error) * Wire) * list Call :=
  match reqs with
  | [] => (([], w), [])
  | req :: rest =>
      let '((r, w1), t1) := SendMsg e req w in
      let '((rs, w2), t2) := SendMsgs e rest w1 in
      ((r :: rs, w2), (t1 ++ t2)%list)
  end.

Record wrappedStream : Type := {
  wsServerStream : ServerStream;
  wsInfo : StreamServerInfo;
  wsAuthz : Authorizer
}.

(** [wrappedStream.RecvMsg]. *)
Definition RecvMsg (e : wrappedStream) (req : Value) (w : Wire)
    : ((Value * option error) * Wire) * list Call :=
  let ctx := ssContext (wsServerStream e) in
  let '((req1, rerr), w1) := ssRecvMsg (wsServerStream e) req w in
  match rerr with
  | Some err => (((req1, Some err), w1), [CallRecv req req1 rerr])
  | None =>
      match asProtoMessage req1 with
      | None =>
          (((req1, notProtoMessage req1), w1), [CallRecv req req1 rerr])
      | Some msg =>
          match NewRPCAuthInput ctx (StreamFullMethod (wsInfo e)) msg with
          | inr err =>
              (((req1, Some err), w1), [CallRecv req req1 rerr])
          | inl authInput =>
              let r := Eval (wsAuthz e) ctx (Some authInput) in
              (((req1, evalErr r), w1),
               CallRecv req req1 rerr :: evalCalls r)
          end
      end
  end.

(** [SendMsg] on a [wrappedStream] is the method promoted from the
    embedded [grpc.ServerStream]: the wrapper declares [RecvMsg] only. *)
Definition ServerSendMsg (e : wrappedStream) (m : Value) (w : Wire)
    : (option error * Wire) * list Call :=
  (ssSendMsg (wsServerStream e) m w, [CallSend m]).

(** A [grpc.StreamHandler] as the calls it makes on the stream it is
    given: each step may depend on what the earlier calls returned. *)
Inductive StreamProg : Type :=
| Done (result : option error)
| DoRecvMsg (dest : Value) (k : Value -> option error -> StreamProg)
| DoSendMsg (m : Value) (k : option error -> StreamProg).

Definition StreamHandler : Type := Value -> Context -> StreamProg.

(** The handler's calls, run on a wrapped stream. *)
Fixpoint runOnWrapped (e : wrappedStream) (p : StreamProg) (w : Wire)
    : (option error * Wire) * list Call :=
  match p with
  | Done result => ((result, w), [])
  | DoRecvMsg dest k =>
      let '(((req1, err), w1), t1) := RecvMsg e dest w in
      let '(r, t2) := runOnWrapped e (k req1 err) w1 in
      (r, (t1 ++ t2)%list)
  | DoSendMsg m k =>
      let '((err, w1), t1) := ServerSendMsg e m w in
      let '(r, t2) := runOnWrapped e (k err) w1 in
      (r, (t1 ++ t2)%list)
  end.

(** [Authorizer.AuthorizeStream]. *)
Definition AuthorizeStream (g : Authorizer) (srv : Value)
    (ss : ServerStream) (info : StreamServerInfo)
    (handler : StreamHandler) (w : Wire)
    : (option error * Wire) * list Call :=
  let wrapped :=
    {| wsServerStream := ss; wsInfo := info; wsAuthz := g |} in
  let '(r, t) := runOnWrapped wrapped (handler srv (ssContext ss)) w in
  (r, CallStreamHandler :: t).

End Streams.

(** ** Vocabulary of the specification *)

(** The input as left by the hooks [hs] run in order from [i]. *)
Definition inputAfter (ctx : Context) (hs : list RPCAuthzHook)
    (i : RPCAuthInput) : RPCAuthInput :=
  fold_left (fun acc h => fst (Hook h ctx acc)) hs i.

(** The input the hook of index [k] is handed: [i] as mutated by all the
    hooks registered before it. *)
Definition seenBy (g : Authorizer) (ctx : Context) (i : RPCAuthInput)
    (k : nat) : RPCAuthInput :=
  inputAfter ctx (firstn k (hooks g)) i.

(** The calls of the loop over the hooks when it starts at index [k] on the
    list [hs] and runs [n] of them, each handed the input as left by those
    before it: the hook of position [j] in [hs] has index [k + j]. *)
Definition loopCalls (ctx : Context) (k : nat) (hs : list RPCAuthzHook)
    (i : RPCAuthInput) (n : nat) : list Call :=
  map (fun j => CallHook (k + j) (inputAfter ctx (firstn j hs) i))
      (seq 0 n).

(** The calls of the first [n] registered hooks, in registration order,
    each with the input it is handed. *)
Definition hookCalls (g : Authorizer) (ctx : Context) (i : RPCAuthInput)
    (n : nat) : list Call :=
  map (fun k => CallHook k (seenBy g ctx i k)) (seq 0 n).

(** The hooks registered before index [k] all return [nil] on the input
    they are handed. *)
Definition hooksPassBefore (g : Authorizer) (ctx : Context)
    (i : RPCAuthInput) (k : nat) : Prop :=
  forall j h, j < k -> nth_error (hooks g) j = Some h ->
    snd (Hook h ctx (seenBy g ctx i j)) = None.

(** What [Eval] returns when a hook returns the error [e]. *)
Definition hookFailure (e : error) : option error :=
  match e with
  | StatusErr _ _ => Some e
  | PlainErr msg => Some (StatusErr codes.Internal ("authz hook error: " ++ msg))
  end.

(** The codes the layer itself classifies its failures with. *)
Definition ownCode (c : codes.Code) : bool :=
  match c with
  | codes.InvalidArgument | codes.Internal | codes.PermissionDenied => true
  | _ => false
  end.

Definition layerError (e : error) : Prop :=
  exists c msg, e = StatusErr c msg /\ ownCode c = true.

(** [e] is an error carrying a status that a registered hook returns. *)
Definition hookStatusError (g : Authorizer) (ctx : Context) (e : error)
    : Prop :=
  exists h i, In h (hooks g) /\ snd (Hook h ctx i) = Some e
              /\ snd (status.FromError e) = true.

(** An input can be built from the value: it is a proto message and its
    conversion succeeds. *)
Definition buildsInput (ctx : Context) (method : string) (v : Value)
    : option RPCAuthInput :=
  match asProtoMessage v with
  | Some msg =>
      match NewRPCAuthInput ctx method msg with
      | inl authInput => Some authInput
      | inr _ => None
      end
  | None => None
  end.

(** The message passes authorization: an input is built from it and [Eval]
    returns [nil] on that input. *)
Definition permitted (g : Authorizer) (ctx : Context) (method : string)
    (v : Value) : bool :=
  match buildsInput ctx method v with
  | Some authInput =>
      match evalErr (Eval g ctx (Some authInput)) with
      | None => true
      | Some _ => false
      end
  | None => false
  end.

Definition isEval (c : Call) : bool :=
  match c with CallEval _ => true | _ => false end.

Definition isHookOrPolicy (c : Call) : bool :=
  match c with CallHook _ _ | CallPolicy _ => true | _ => false end.

(** The underlying receive returned a message. *)
Definition isReceived (c : Call) : bool :=
  match c with CallRecv _ _ None => true | _ => false end.

(** The underlying receive returned a message from which an input can be
    built. *)
Definition isReceivedBuildable (ctx : Context) (method : string) (c : Call)
    : bool :=
  match c with
  | CallRecv _ filled None =>
      match buildsInput ctx method filled with
      | Some _ => true
      | None => false
      end
  | _ => false
  end.

(** The message passes authorization on this wrapped client stream. *)
Definition sendPermitted (Wire : Type) (s : wrappedClientStream Wire)
    (req : Value) : bool :=
  permitted (wcsAuthz s) (csContext (wcsClientStream s)) (wcsMethod s) req.

(** The call is a receive on the stream under this wrapper that returned a
    message from which an input can be built. *)
Definition receivedBuildable (Wire : Type) (s : wrappedStream Wire)
    (c : Call) : bool :=
  isReceivedBuildable (ssContext (wsServerStream s))
    (StreamFullMethod (wsInfo s)) c.

(** The messages handed to the underlying send, in order. *)
Fixpoint sentMessages (t : list Call) : list Value :=
  match t with
  | [] => []
  | CallSend m :: rest => m :: sentMessages rest
  | _ :: rest => sentMessages rest
  end.

Definition count (f : Call -> bool) (t : list Call) : nat :=
  List.length (filter f t).

(** What a receive call hands to the handler under the contract of
    [RecvMsg]: the filled destination when the call returns [nil], nothing
    when it returns an error. *)
Definition delivered (r : Value * option error) : option Value :=
  match snd r with
  | None => Some (fst r)
  | Some _ => None
  end.

(** ** Sample collaborators *)

Module Sample.

Definition ctx : Context :=
  {| ctxPeer := None; ctxMetadata := [("user-agent", "sanssh")] |}.

Definition input : RPCAuthInput :=
  {| Method := "/Exec.Exec/Run"; MessageType := "Exec.ExecRequest";
     Message := "{}"; Peer := None; Metadata := [] |}.

(** Injects a derived attribute. *)
Definition setPeer : RPCAuthzHook :=
  {| Hook := fun _ i =>
       ({| Method := Method i; MessageType := MessageType i;
           Message := Message i; Peer := Some "alice";
           Metadata := Metadata i |}, None) |}.

(** Fails, unclassified, unless the attribute is there. *)
Definition needPeer : RPCAuthzHook :=
  {| Hook := fun _ i =>
       match Peer i with
       | Some _ => (i, None)
       | None => (i, Some (PlainErr "no peer"))
       end |}.

(** Hooks rejecting with a status of their own. *)
Definition denyHook : RPCAuthzHook :=
  {| Hook := fun _ i =>
       (i, Some (StatusErr codes.PermissionDenied "not on call")) |}.

Definition unauthHook : RPCAuthzHook :=
  {| Hook := fun _ i =>
       (i, Some (StatusErr codes.Unauthenticated "no token")) |}.

Definition allowAll : opa.AuthzPolicy :=
  {| opa.Eval := fun _ _ => (true, None) |}.

Definition denyAll : opa.AuthzPolicy :=
  {| opa.Eval := fun _ _ => (false, None) |}.

Definition broken : opa.AuthzPolicy :=
  {| opa.Eval := fun _ _ => (false, Some (PlainErr "rego: eval failed")) |}.

(** Allows every message but those of type [Exec.RmRequest]. *)
Definition noRm : opa.AuthzPolicy :=
  {| opa.Eval := fun _ i =>
       (negb (String.eqb (MessageType i) "Exec.RmRequest"), None) |}.

Definition run : ProtoMessage :=
  {| msgName := "Exec.ExecRequest"; msgStructured := inl "{}" |}.

Definition rm : ProtoMessage :=
  {| msgName := "Exec.RmRequest"; msgStructured := inl "{}" |}.

(** A message whose conversion to the structured form fails. *)
Definition opaque : ProtoMessage :=
  {| msgName := "google.protobuf.Any";
     msgStructured := inr "unable to resolve type URL" |}.

Definition info : grpc.UnaryServerInfo :=
  {| grpc.FullMethod := "/Exec.Exec/Run" |}.

Definition handler : grpc.UnaryHandler :=
  fun _ req => (Some req, None).

Definition invoker : grpc.UnaryInvoker :=
  fun _ _ req _ => (req, None).

(** A client stream whose wire is the list of messages transmitted. *)
Definition clientStream : ClientStream (list Value) :=
  {| csContext := ctx;
     csSendMsg := fun req w => (None, (w ++ [req])%list);
     csCloseSend := fun w => (None, w) |}.

(** A server stream whose wire is the list of messages still to come. *)
Definition serverStream : ServerStream (list Value) :=
  {| ssContext := ctx;
     ssSendMsg := fun _ w => (None, w);
     ssRecvMsg := fun dest w =>
       match w with
       | [] => ((dest, Some (PlainErr "EOF")), [])
       | m :: rest => ((m, None), rest)
       end |}.

Definition streamInfo : StreamServerInfo :=
  {| StreamFullMethod := "/Exec.Exec/Run" |}.

Definition wrappedClient (g : Authorizer)
    : wrappedClientStream (list Value) :=
  {| wcsClientStream := clientStream; wcsMethod := "/Exec.Exec/Run";
     wcsAuthz := g |}.

Definition wrappedServer (g : Authorizer) : wrappedStream (list Value) :=
  {| wsServerStream := serverStream; wsInfo := streamInfo;
     wsAuthz := g |}.

(** A handler that receives one message and returns what that gave. *)
Definition recvOnce : StreamHandler :=
  fun _ _ => DoRecvMsg (VOther "<nil>") (fun _ err => Done err).

End Sample.

(** ** More vocabulary for the adapters *)

(** The call hands the request on: to the handler, the invoker or the
    underlying send. *)
Definition isForward (c : Call) : bool :=
  match c with
  | CallHandler _ | CallInvoker _ _ | CallSend _ => true
  | _ => false
  end.

Definition isPolicy (c : Call) : bool :=
  match c with CallPolicy _ => true | _ => false end.

Definition isHook (c : Call) : bool :=
  match c with CallHook _ _ => true | _ => false end.

Definition isNil (e : option error) : bool :=
  match e with None => true | Some _ => false end.

(** * The command-line clients

    [services/sansshell/client] (the logging verbosity commands) and
    [services/exec/client] (the run command).  Both render the responses of
    a call fanned out to several targets onto one pair of writers per
    target. *)

From Stdlib Require Import ZArith Ascii DecimalString.

Module subcommands.

Inductive ExitStatus : Type := ExitSuccess | ExitFailure | ExitUsageError.

End subcommands.

(** An [io.Writer] is the text written to it so far; [fmt.Fprintf] appends
    the formatted text.  Write errors are not looked at by the callers. *)
Definition Writer : Type := string.

Definition newline : string := String "010"%char EmptyString.

(** The verb [%d]. *)
Definition formatInt (z : Z) : string :=
  NilZero.string_of_int (Z.to_int z).

(** The conversion [int32(x)]: the low 32 bits, read as a signed number. *)
Definition int32 (z : Z) : Z :=
  ((z + 2 ^ 31) mod 2 ^ 32 - 2 ^ 31)%Z.

(** A step that may panic: [None] is the panic. *)
Definition bind {A B : Type} (m : option A) (f : A -> option B)
    : option B :=
  match m with
  | Some a => f a
  | None => None
  end.

Notation "x <- m ;; f" := (bind m (fun x => f))
  (at level 61, m at next level, right associativity).

Fixpoint setNth {A : Type} (n : nat) (a : A) (l : list A) : list A :=
  match l, n with
  | [], _ => []
  | _ :: rest, O => a :: rest
  | x :: rest, S n => x :: setNth n a rest
  end.

(** [fmt.Fprintf(ws[idx], ...)]: indexing a slice panics when the index is
    negative or not below its length. *)
Definition FprintfAt (ws : list Writer) (idx : Z) (text : string)
    : option (list Writer) :=
  if (idx <? 0)%Z then None
  else
    match nth_error ws (Z.to_nat idx) with
    | Some w => Some (setNth (Z.to_nat idx) (w ++ text) ws)
    | None => None
    end.

(** The index is one of a slice of [n] elements. *)
Definition inRange (idx : Z) (n : nat) : Prop :=
  (0 <= idx < Z.of_nat n)%Z.

(** The loop [for _, e := range state.Err { fmt.Fprintf(e, ...) }]. *)
Definition FprintfAll (ws : list Writer) (text : string) : list Writer :=
  map (fun w => w ++ text) ws.

(** [util.ExecuteState]: the connection and one output and one error
    writer per target. *)
Record ExecuteState (C : Type) : Type := {
  Conn : C;
  Out : list Writer;
  Err : list Writer
}.

(** The text the items addressed to writer [j] add up to, in order. *)
Fixpoint textFor (j : nat) (items : list (Z * string)) : string :=
  match items with
  | [] => ""
  | (idx, text) :: rest =>
      if (idx =? Z.of_nat j)%Z then text ++ textFor j rest
      else textFor j rest
  end.

Module logging.

(** [pb.SetVerbosityReply] and [pb.GetVerbosityReply]: one [int32]. *)
Record Reply : Type := { Level : Z }.

(** [pb.SetVerbosityManyResponse] and [pb.GetVerbosityManyResponse]. *)
Record ManyResponse : Type := {
  Target : string;
  Index : Z;
  Resp : option Reply;
  Error : option error
}.

(** The calls of the logging client: the fanned-out ones return the
    responses in the order the channel yields them, or an error; the ones
    on the proxy return one reply or an error. *)
Record LoggingConn : Type := {
  SetVerbosityOneMany : Z -> list ManyResponse + error;
  GetVerbosityOneMany : list ManyResponse + error;
  ProxySetVerbosity : Z -> Reply + error;
  ProxyGetVerbosity : Reply + error
}.

Record setVerbosityCmd : Type := { level : Z }.

(** The loop [for r := range resp] of [setVerbosityCmd.Execute] and
    [getVerbosityCmd.Execute], which differ in the two texts only. *)
Fixpoint rangeResponses (onError : ManyResponse -> error -> string)
    (onReply : ManyResponse -> Reply -> string)
    (resp : list ManyResponse) (out err : list Writer)
    (retCode : subcommands.ExitStatus)
    : option (subcommands.ExitStatus * (list Writer * list Writer)) :=
  match resp with
  | [] => Some (retCode, (out, err))
  | r :: rest =>
      match Error r with
      | Some e =>
          err1 <- FprintfAt err (Index r) (onError r e) ;;
          rangeResponses onError onReply rest out err1
            subcommands.ExitFailure
      | None =>
          reply <- Resp r ;;
          out1 <- FprintfAt out (Index r) (onReply r reply) ;;
          rangeResponses onError onReply rest out1 err retCode
      end
  end.

Definition setError (r : ManyResponse) (e : error) : string :=
  "Setting logging verbosity for target " ++ Target r ++ " ("
    ++ formatInt (Index r) ++ ") returned error: " ++ ErrorString e
    ++ newline.

Definition setReply (r : ManyResponse) (reply : Reply) : string :=
  "Target " ++ Target r ++ " (" ++ formatInt (Index r)
    ++ ") previous logging level " ++ formatInt (Level reply) ++ newline.

Definition getError (r : ManyResponse) (e : error) : string :=
  "Getting logging verbosity for target " ++ Target r ++ " ("
    ++ formatInt (Index r) ++ ") returned error: " ++ ErrorString e
    ++ newline.

Definition getReply (r : ManyResponse) (reply : Reply) : string :=
  "Target " ++ Target r ++ " (" ++ formatInt (Index r)
    ++ ") current logging level " ++ formatInt (Level reply) ++ newline.

Definition withWriters (state : ExecuteState LoggingConn)
    (r : subcommands.ExitStatus * (list Writer * list Writer))
    : subcommands.ExitStatus * ExecuteState LoggingConn :=
  (fst r,
   {| Conn := Conn state; Out := fst (snd r); Err := snd (snd r) |}).

(** [setVerbosityCmd.Execute]. *)
Definition setVerbosityExecute (s : setVerbosityCmd)
    (state : ExecuteState LoggingConn)
    : option (subcommands.ExitStatus * ExecuteState LoggingConn) :=
  match SetVerbosityOneMany (Conn state) (int32 (level s)) with
  | inr err =>
      Some (subcommands.ExitFailure,
            {| Conn := Conn state; Out := Out state;
               Err := FprintfAll (Err state)
                        ("Could not set logging: " ++ ErrorString err
                           ++ newline) |})
  | inl resp =>
      r <- rangeResponses setError setReply resp (Out state) (Err state)
             subcommands.ExitSuccess ;;
      Some (withWriters state r)
  end.

(** [getVerbosityCmd.Execute]. *)
Definition getVerbosityExecute (state : ExecuteState LoggingConn)
    : option (subcommands.ExitStatus * ExecuteState LoggingConn) :=
  match GetVerbosityOneMany (Conn state) with
  | inr err =>
      Some (subcommands.ExitFailure,
            {| Conn := Conn state; Out := Out state;
               Err := FprintfAll (Err state)
                        ("Could not set logging: " ++ ErrorString err
                           ++ newline) |})
  | inl resp =>
      r <- rangeResponses getError getReply resp (Out state) (Err state)
             subcommands.ExitSuccess ;;
      Some (withWriters state r)
  end.

(** The warning both proxy commands print on [os.Stderr] when there is
    more than one target; they go on after it. *)
Definition warnMultipleTargets (state : ExecuteState LoggingConn)
    (stderr : Writer) : Writer :=
  if Nat.ltb 1 (List.length (Out state))
  then stderr ++ "can't call proxy logging with multiple targets"
  else stderr.

(** The tail shared by [setProxyVerbosityCmd.Execute] and
    [getProxyVerbosityCmd.Execute]: the reply or the error goes to the
    writers of index 0. *)
Definition renderProxy (onError : error -> string) (onReply : Reply -> string)
    (call : Reply + error) (state : ExecuteState LoggingConn)
    : option (subcommands.ExitStatus * ExecuteState LoggingConn) :=
  match call with
  | inr err =>
      err1 <- FprintfAt (Err state) 0 (onError err) ;;
      Some (subcommands.ExitFailure,
            {| Conn := Conn state; Out := Out state; Err := err1 |})
  | inl reply =>
      out1 <- FprintfAt (Out state) 0 (onReply reply) ;;
      Some (subcommands.ExitSuccess,
            {| Conn := Conn state; Out := out1; Err := Err state |})
  end.

(** [setProxyVerbosityCmd.Execute]; the last component is [os.Stderr]. *)
Definition setProxyVerbosityExecute (s : setVerbosityCmd)
    (state : ExecuteState LoggingConn) (stderr : Writer)
    : option (subcommands.ExitStatus * ExecuteState LoggingConn) * Writer :=
  (renderProxy
     (fun err => "Could not set proxy logging: " ++ ErrorString err
                   ++ newline)
     (fun reply => "Proxy previous logging level "
                     ++ formatInt (Level reply) ++ newline)
     (ProxySetVerbosity (Conn state) (int32 (level s))) state,
   warnMultipleTargets state stderr).

(** [getProxyVerbosityCmd.Execute]. *)
Definition getProxyVerbosityExecute (state : ExecuteState LoggingConn)
    (stderr : Writer)
    : option (subcommands.ExitStatus * ExecuteState LoggingConn) * Writer :=
  (renderProxy
     (fun err => "Could not get proxy logging: " ++ ErrorString err
                   ++ newline)
     (fun reply => "Proxy current logging level "
                     ++ formatInt (Level reply) ++ newline)
     (ProxyGetVerbosity (Conn state)) state,
   warnMultipleTargets state stderr).

(** A response makes the loop panic: its writer is out of range, or it
    carries neither an error nor a reply. *)
Definition panics (nOut nErr : nat) (r : ManyResponse) : Prop :=
  match Error r with
  | Some _ => (Index r < 0 \/ Z.of_nat nErr <= Index r)%Z
  | None => Resp r = None \/ (Index r < 0 \/ Z.of_nat nOut <= Index r)%Z
  end.

(** What the responses put on the output and on the error writers. *)
Fixpoint outItems (onReply : ManyResponse -> Reply -> string)
    (resp : list ManyResponse) : list (Z * string) :=
  match resp with
  | [] => []
  | r :: rest =>
      match Error r, Resp r with
      | None, Some reply => (Index r, onReply r reply) :: outItems onReply rest
      | _, _ => outItems onReply rest
      end
  end.

Fixpoint errItems (onError : ManyResponse -> error -> string)
    (resp : list ManyResponse) : list (Z * string) :=
  match resp with
  | [] => []
  | r :: rest =>
      match Error r with
      | Some e => (Index r, onError r e) :: errItems onError rest
      | None => errItems onError rest
      end
  end.

(** Some response carries an error. *)
Definition anyError (resp : list ManyResponse) : bool :=
  existsb (fun r => negb (isNil (Error r))) resp.

End logging.

Module exec.

(** [pb.ExecRequest] and [pb.ExecResponse] (services/exec/exec.proto). *)
Record ExecRequest : Type := {
  Command : string;
  Args : list string
}.

Record ExecResponse : Type := {
  Stdout : string;
  Stderr : string;
  RetCode : Z
}.

(** [pb.RunManyResponse]. *)
Record RunManyResponse : Type := {
  Target : string;
  Index : Z;
  Resp : option ExecResponse;
  Error : option error
}.

Record ExecConn : Type := {
  RunOneMany : ExecRequest -> list RunManyResponse + error
}.

Definition runError (r : RunManyResponse) (e : error) : string :=
  "Command execution failure for target " ++ Target r ++ " ("
    ++ formatInt (Index r) ++ ") - error - " ++ ErrorString e ++ newline.

(** The loop [for r := range resp] of [runCmd.Execute].  [r.Resp.Stderr] is
    read first, whether or not the response carries an error. *)
Fixpoint rangeRun (resp : list RunManyResponse) (out err : list Writer)
    (returnCode : subcommands.ExitStatus)
    : option (subcommands.ExitStatus * (list Writer * list Writer)) :=
  match resp with
  | [] => Some (returnCode, (out, err))
  | r :: rest =>
      reply <- Resp r ;;
      err1 <- (if Nat.ltb 0 (String.length (Stderr reply))
               then FprintfAt err (Index r) (Stderr reply)
               else Some err) ;;
      match Error r with
      | Some e =>
          err2 <- FprintfAt err1 (Index r) (runError r e) ;;
          rangeRun rest out err2 subcommands.ExitFailure
      | None =>
          out1 <- FprintfAt out (Index r) (Stdout reply) ;;
          rangeRun rest out1 err1 returnCode
      end
  end.

(** [runCmd.Execute] on the arguments [f.Args()]; the last component is
    [os.Stderr]. *)
Definition runExecute (args : list string)
    (state : ExecuteState ExecConn) (stderr : Writer)
    : option (subcommands.ExitStatus * ExecuteState ExecConn) * Writer :=
  match args with
  | [] =>
      (Some (subcommands.ExitUsageError, state),
       stderr ++ "Please specify a command to execute." ++ newline)
  | command :: rest =>
      (match RunOneMany (Conn state)
               {| Command := command; Args := rest |} with
       | inr err =>
           Some (subcommands.ExitFailure,
                 {| Conn := Conn state; Out := Out state;
                    Err := FprintfAll (Err state)
                             ("Could not execute due to likely program failure: "
                                ++ ErrorString err ++ newline) |})
       | inl resp =>
           r <- rangeRun resp (Out state) (Err state)
                  subcommands.ExitSuccess ;;
           Some (fst r,
                 {| Conn := Conn state; Out := fst (snd r);
                    Err := snd (snd r) |})
       end,
       stderr)
  end.

(** A response makes the loop panic: it has no [Resp], or a writer it
    writes to is out of range. *)
Definition panics (nOut nErr : nat) (r : RunManyResponse) : Prop :=
  match Resp r with
  | None => True
  | Some reply =>
      match Error r with
      | Some _ => (Index r < 0 \/ Z.of_nat nErr <= Index r)%Z
      | None =>
          (Stderr reply <> "" /\ (Index r < 0 \/ Z.of_nat nErr <= Index r)%Z)
          \/ (Index r < 0 \/ Z.of_nat nOut <= Index r)%Z
      end
  end.

(** What the responses put on the output writers: the standard output of
    the responses without an error. *)
Fixpoint outItems (resp : list RunManyResponse) : list (Z * string) :=
  match resp with
  | [] => []
  | r :: rest =>
      match Error r, Resp r with
      | None, Some reply => (Index r, Stdout reply) :: outItems rest
      | _, _ => outItems rest
      end
  end.

(** What they put on the error writers: the standard error of every
    response, followed by the failure line when it carries an error. *)
Fixpoint errItems (resp : list RunManyResponse) : list (Z * string) :=
  match resp with
  | [] => []
  | r :: rest =>
      match Resp r with
      | Some reply =>
          (Index r,
           Stderr reply
             ++ match Error r with
                | Some e => runError r e
                | None => ""
                end) :: errItems rest
      | None => errItems rest
      end
  end.

Definition withRetCode (c : Z) (r : RunManyResponse) : RunManyResponse :=
  {| Target := Target r; Index := Index r;
     Resp := option_map
               (fun reply => {| Stdout := Stdout reply;
                                Stderr := Stderr reply; RetCode := c |})
               (Resp r);
     Error := Error r |}.

(** The same state, on a connection whose targets all report the return
    code [c]. *)
Definition stateWithRetCode (c : Z) (state : ExecuteState ExecConn)
    : ExecuteState ExecConn :=
  {| Conn :=
       {| RunOneMany := fun req =>
            match RunOneMany (Conn state) req with
            | inl resp => inl (map (withRetCode c) resp)
            | inr err => inr err
            end |};
     Out := Out state;
     Err := Err state |}.

(** What a run shows: the exit status and the writers. *)
Definition shown (r : option (subcommands.ExitStatus * ExecuteState ExecConn))
    : option (subcommands.ExitStatus * (list Writer * list Writer)) :=
  option_map (fun p => (fst p, (Out (snd p), Err (snd p)))) r.

(** Some response carries an error. *)
Definition anyError (resp : list RunManyResponse) : bool :=
  existsb (fun r => negb (isNil (Error r))) resp.

End exec.

(** ** Sample targets *)

Module SampleCli.

Definition ok0 : logging.ManyResponse :=
  {| logging.Target := "host-a"; logging.Index := 0;
     logging.Resp := Some {| logging.Level := 2 |};
     logging.Error := None |}.

Definition failed1 : logging.ManyResponse :=
  {| logging.Target := "host-b"; logging.Index := 1;
     logging.Resp := None;
     logging.Error := Some (StatusErr codes.PermissionDenied "denied") |}.

Definition stray : logging.ManyResponse :=
  {| logging.Target := "host-z"; logging.Index := 7;
     logging.Resp := Some {| logging.Level := 0 |};
     logging.Error := None |}.

Definition conn (resp : list logging.ManyResponse) : logging.LoggingConn :=
  {| logging.SetVerbosityOneMany := fun _ => inl resp;
     logging.GetVerbosityOneMany := inl resp;
     logging.ProxySetVerbosity := fun l => inl {| logging.Level := l |};
     logging.ProxyGetVerbosity := inr (PlainErr "proxy down") |}.

Definition state (resp : list logging.ManyResponse)
    : ExecuteState logging.LoggingConn :=
  {| Conn := conn resp; Out := [""; ""]; Err := [""; ""] |}.

Definition ran0 : exec.RunManyResponse :=
  {| exec.Target := "host-a"; exec.Index := 0;
     exec.Resp := Some {| exec.Stdout := "ok"; exec.Stderr := "warn";
                          exec.RetCode := 3 |};
     exec.Error := None |}.

Definition lost1 : exec.RunManyResponse :=
  {| exec.Target := "host-b"; exec.Index := 1;
     exec.Resp := None;
     exec.Error := Some (PlainErr "connection reset") |}.

Definition execState (resp : list exec.RunManyResponse)
    : ExecuteState exec.ExecConn :=
  {| Conn := {| exec.RunOneMany := fun _ => inl resp |};
     Out := [""; ""]; Err := [""; ""] |}.

End SampleCli.

(** * Properties *)

Unset Implicit Arguments.
Local Open Scope list_scope.

(** Discharges [hooksPassBefore] on a concrete list of hooks. *)
Ltac pass_before :=
  let j := fresh "j" in
  let h := fresh "h" in
  let Hj := fresh "Hj" in
  let Hn := fresh "Hn" in
  intros j h Hj Hn;
  repeat (destruct j as [|j];
          [ simpl in Hn; injection Hn as <-; reflexivity || (simpl in Hj; lia)
          | ]);
  simpl in Hj; lia.

(** ** The hook loop *)

Section HookLoop.

Variable ctx : Context.

Lemma inputAfter_cons (h : RPCAuthzHook) (hs : list RPCAuthzHook)
    (i : RPCAuthInput) :
  inputAfter ctx (h :: hs) i = inputAfter ctx hs (fst (Hook h ctx i)).
Proof. reflexivity. Qed.

Lemma loopCalls_succ (k : nat) (h : RPCAuthzHook)
    (hs : list RPCAuthzHook) (i : RPCAuthInput) (n : nat) :
  loopCalls ctx k (h :: hs) i (S n)
  = CallHook k i :: loopCalls ctx (S k) hs (fst (Hook h ctx i)) n.
Proof.
  unfold loopCalls. simpl. rewrite Nat.add_0_r. f_equal.
  rewrite <- seq_shift, map_map. apply map_ext. intro j.
  now rewrite Nat.add_succ_r.
Qed.

(** Every hook passes: the loop falls through, having called them all. *)
Lemma runHooks_pass (hs : list RPCAuthzHook) :
  forall (k : nat) (i : RPCAuthInput),
    (forall j h, nth_error hs j = Some h ->
       snd (Hook h ctx (inputAfter ctx (firstn j hs) i)) = None) ->
    runHooks ctx k hs i
    = (inputAfter ctx hs i, None, loopCalls ctx k hs i (List.length hs)).
Proof.
  induction hs as [|h rest IH]; intros k i Hpass.
  - reflexivity.
  - pose proof (Hpass 0 h eq_refl) as H0. simpl in H0.
    cbn [runHooks List.length]. rewrite loopCalls_succ, inputAfter_cons.
    destruct (Hook h ctx i) as [i1 r] eqn:Eh. simpl in H0. subst r.
    rewrite (IH (S k) i1). 1: reflexivity.
    intros j hj Hj. specialize (Hpass (S j) hj Hj).
    simpl in Hpass. now rewrite Eh in Hpass.
Qed.

(** The hook at position [n] is the first to fail: the loop returns
    there. *)
Lemma runHooks_stop (hs : list RPCAuthzHook) :
  forall (k n : nat) (i : RPCAuthInput) (h : RPCAuthzHook) (e : error),
    nth_error hs n = Some h ->
    (forall j hj, j < n -> nth_error hs j = Some hj ->
       snd (Hook hj ctx (inputAfter ctx (firstn j hs) i)) = None) ->
    snd (Hook h ctx (inputAfter ctx (firstn n hs) i)) = Some e ->
    runHooks ctx k hs i
    = (inputAfter ctx (firstn (S n) hs) i, hookFailure e,
       loopCalls ctx k hs i (S n)).
Proof.
  induction hs as [|h0 rest IH]; intros k n i h e Hn Hpass Hfail.
  - destruct n; discriminate.
  - cbn [runHooks]. rewrite loopCalls_succ.
    destruct n as [|n].
    + injection Hn as ->. simpl in Hfail.
      destruct (Hook h ctx i) as [i1 r] eqn:Eh. simpl in Hfail. subst r.
      cbn [firstn]. rewrite inputAfter_cons, Eh.
      destruct e; reflexivity.
    + pose proof (Hpass 0 h0 (Nat.lt_0_succ n) eq_refl) as H0.
      simpl in H0, Hn, Hfail.
      change (firstn (S (S n)) (h0 :: rest))
        with (h0 :: firstn (S n) rest).
      rewrite inputAfter_cons.
      destruct (Hook h0 ctx i) as [i1 r] eqn:Eh. simpl in H0. subst r.
      simpl in Hfail.
      rewrite (IH (S k) n i1 h e Hn); [reflexivity | | exact Hfail].
      intros j hj Hj Hnth.
      specialize (Hpass (S j) hj (proj1 (Nat.succ_lt_mono j n) Hj) Hnth).
      simpl in Hpass. now rewrite Eh in Hpass.
Qed.

Lemma loopCalls_hookCalls (g : Authorizer) (i : RPCAuthInput) (n : nat) :
  loopCalls ctx 0 (hooks g) i n = hookCalls g ctx i n.
Proof. reflexivity. Qed.

End HookLoop.

(** ** Eval *)

Section EvalProperties.

Variables (g : Authorizer) (ctx : Context) (i : RPCAuthInput).

Lemma seenBy_all :
  seenBy g ctx i (List.length (hooks g)) = inputAfter ctx (hooks g) i.
Proof. unfold seenBy. now rewrite firstn_all. Qed.

Lemma hooks_all_pass :
  hooksPassBefore g ctx i (List.length (hooks g)) ->
  runHooks ctx 0 (hooks g) i
  = (inputAfter ctx (hooks g) i, None,
     hookCalls g ctx i (List.length (hooks g))).
Proof.
  intro Hpass. rewrite runHooks_pass; [reflexivity|].
  intros j h Hj. apply (Hpass j h); [|exact Hj].
  apply nth_error_Some. congruence.
Qed.

Lemma hooks_first_failure (k : nat) (h : RPCAuthzHook) (e : error) :
  nth_error (hooks g) k = Some h ->
  hooksPassBefore g ctx i k ->
  snd (Hook h ctx (seenBy g ctx i k)) = Some e ->
  runHooks ctx 0 (hooks g) i
  = (seenBy g ctx i (S k), hookFailure e, hookCalls g ctx i (S k)).
Proof.
  intros Hk Hpass Hfail.
  now rewrite (runHooks_stop ctx (hooks g) 0 k i h e Hk Hpass Hfail).
Qed.

Lemma hookFailure_some (e : error) : exists e', hookFailure e = Some e'.
Proof. destruct e; eexists; reflexivity. Qed.

Lemma Eval_first_failure (k : nat) (h : RPCAuthzHook) (e : error) :
  nth_error (hooks g) k = Some h ->
  hooksPassBefore g ctx i k ->
  snd (Hook h ctx (seenBy g ctx i k)) = Some e ->
  Eval g ctx (Some i)
  = {| evalErr := hookFailure e;
       evalInput := Some (seenBy g ctx i (S k));
       evalCalls := CallEval (Some i) :: hookCalls g ctx i (S k) |}.
Proof.
  intros Hk Hpass Hfail. unfold Eval.
  rewrite (hooks_first_failure k h e Hk Hpass Hfail).
  destruct (hookFailure_some e) as [e' ->]. reflexivity.
Qed.

(** C1: on a non-null input, when every registered hook returns no error
    on the input it is handed and the policy evaluator returns
    [(true, nil)] on the input the hooks leave, [Eval] returns [nil]. *)
Theorem C1_eval_allows :
  hooksPassBefore g ctx i (List.length (hooks g)) ->
  opa.Eval (policy g) ctx (inputAfter ctx (hooks g) i) = (true, None) ->
  evalErr (Eval g ctx (Some i)) = None.
Proof.
  intros Hpass Hpol. unfold Eval.
  rewrite (hooks_all_pass Hpass), Hpol. reflexivity.
Qed.

(** C2: on a non-null input, when every hook succeeds and the policy
    evaluator returns [(false, nil)], [Eval] returns the
    PermissionDenied status whose message is the fixed generic text,
    whatever the hooks did to the input and whatever the policy is. *)
Theorem C2_eval_denies :
  hooksPassBefore g ctx i (List.length (hooks g)) ->
  opa.Eval (policy g) ctx (inputAfter ctx (hooks g) i) = (false, None) ->
  evalErr (Eval g ctx (Some i))
  = Some (StatusErr codes.PermissionDenied
            "OPA policy does not permit this request").
Proof.
  intros Hpass Hpol. unfold Eval.
  rewrite (hooks_all_pass Hpass), Hpol. reflexivity.
Qed.

(** C3: on a non-null input the hooks are called one at a time in
    registration order, the hook of index [k] being handed the input as
    left by the hooks before it.  If the hook of index [k] is the first
    to return an error, the calls of [Eval] end with that hook: no later
    hook and not the policy evaluator is called.  If no hook returns an
    error, all hooks are called and then the policy evaluator, on the
    input the hooks leave.  The registered hooks are the ones supplied to
    [New], in the order supplied. *)
Theorem C3_hooks_in_order_short_circuit :
  (forall k h e,
     nth_error (hooks g) k = Some h ->
     hooksPassBefore g ctx i k ->
     snd (Hook h ctx (seenBy g ctx i k)) = Some e ->
     evalCalls (Eval g ctx (Some i))
     = CallEval (Some i) :: hookCalls g ctx i (S k))
  /\ (hooksPassBefore g ctx i (List.length (hooks g)) ->
      evalCalls (Eval g ctx (Some i))
      = CallEval (Some i)
          :: hookCalls g ctx i (List.length (hooks g))
          ++ [CallPolicy (inputAfter ctx (hooks g) i)])
  /\ (forall p authzHooks, hooks (New p authzHooks) = authzHooks).
Proof.
  split; [|split; [|reflexivity]].
  - intros k h e Hk Hpass Hfail.
    now rewrite (Eval_first_failure k h e Hk Hpass Hfail).
  - intro Hpass. unfold Eval. rewrite (hooks_all_pass Hpass).
    destruct (opa.Eval (policy g) ctx (inputAfter ctx (hooks g) i))
      as [allowed [perr|]]; [reflexivity|].
    destruct allowed; reflexivity.
Qed.

(** C4: when the first hook to fail returns an error that carries a
    status, [Eval] returns that very error; when it returns an error
    without a status, [Eval] returns an Internal status whose message is
    the hook error's message after the prefix "authz hook error: ". *)
Theorem C4_hook_error_classification (k : nat) (h : RPCAuthzHook)
    (e : error) :
  nth_error (hooks g) k = Some h ->
  hooksPassBefore g ctx i k ->
  snd (Hook h ctx (seenBy g ctx i k)) = Some e ->
  (snd (status.FromError e) = true ->
   evalErr (Eval g ctx (Some i)) = Some e)
  /\ (snd (status.FromError e) = false ->
      evalErr (Eval g ctx (Some i))
      = Some (StatusErr codes.Internal
                ("authz hook error: " ++ ErrorString e))).
Proof.
  intros Hk Hpass Hfail.
  rewrite (Eval_first_failure k h e Hk Hpass Hfail). simpl.
  destruct e; simpl; split; intro; reflexivity || discriminate.
Qed.

(** C9: [Eval] on a null input returns the InvalidArgument status and
    calls no hook and not the policy evaluator. *)
Theorem C9_eval_nil_input :
  evalErr (Eval g ctx None)
  = Some (StatusErr codes.InvalidArgument "policy input cannot be nil")
  /\ evalCalls (Eval g ctx None) = [CallEval None]
  /\ forall c, In c (evalCalls (Eval g ctx None)) ->
       isHookOrPolicy c = false.
Proof.
  repeat split. intros c [<-|[]]. reflexivity.
Qed.

End EvalProperties.

Lemma C1_witness :
  evalErr (Eval (New Sample.allowAll [Sample.setPeer; Sample.needPeer])
             Sample.ctx (Some Sample.input)) = None.
Proof.
  apply C1_eval_allows.
  - pass_before.
  - reflexivity.
Defined.

Lemma C2_witness :
  evalErr (Eval (New Sample.denyAll [Sample.setPeer; Sample.needPeer])
             Sample.ctx (Some Sample.input))
  = Some (StatusErr codes.PermissionDenied
            "OPA policy does not permit this request").
Proof.
  apply C2_eval_denies.
  - pass_before.
  - reflexivity.
Defined.

(** With the hooks [setPeer; denyHook; needPeer] the second hook fails: it
    has seen the peer the first one set, and neither the third hook nor the
    policy is called.  With [setPeer; needPeer] all are called in order. *)
Lemma C3_witness :
  evalCalls
    (Eval (New Sample.allowAll
             [Sample.setPeer; Sample.denyHook; Sample.needPeer])
       Sample.ctx (Some Sample.input))
  = [CallEval (Some Sample.input);
     CallHook 0 Sample.input;
     CallHook 1 (fst (Hook Sample.setPeer Sample.ctx Sample.input))]
  /\ evalCalls
       (Eval (New Sample.allowAll [Sample.setPeer; Sample.needPeer])
          Sample.ctx (Some Sample.input))
     = [CallEval (Some Sample.input);
        CallHook 0 Sample.input;
        CallHook 1 (fst (Hook Sample.setPeer Sample.ctx Sample.input));
        CallPolicy (fst (Hook Sample.setPeer Sample.ctx Sample.input))].
Proof.
  split.
  - apply (proj1 (C3_hooks_in_order_short_circuit
                    (New Sample.allowAll
                       [Sample.setPeer; Sample.denyHook; Sample.needPeer])
                    Sample.ctx Sample.input)
             1 Sample.denyHook
             (StatusErr codes.PermissionDenied "not on call")).
    + reflexivity.
    + pass_before.
    + reflexivity.
  - apply (proj1 (proj2 (C3_hooks_in_order_short_circuit
                    (New Sample.allowAll [Sample.setPeer; Sample.needPeer])
                    Sample.ctx Sample.input))).
    pass_before.
Defined.

(** A hook's own PermissionDenied is returned as it is; the unclassified
    error of [needPeer], registered first, comes back as Internal. *)
Lemma C4_witness :
  evalErr
    (Eval (New Sample.allowAll [Sample.setPeer; Sample.denyHook])
       Sample.ctx (Some Sample.input))
  = Some (StatusErr codes.PermissionDenied "not on call")
  /\ evalErr
       (Eval (New Sample.allowAll [Sample.needPeer; Sample.setPeer])
          Sample.ctx (Some Sample.input))
     = Some (StatusErr codes.Internal "authz hook error: no peer").
Proof.
  split.
  - apply (C4_hook_error_classification
             (New Sample.allowAll [Sample.setPeer; Sample.denyHook])
             Sample.ctx Sample.input 1 Sample.denyHook
             (StatusErr codes.PermissionDenied "not on call"));
      [reflexivity | pass_before | reflexivity | reflexivity].
  - apply (C4_hook_error_classification
             (New Sample.allowAll [Sample.needPeer; Sample.setPeer])
             Sample.ctx Sample.input 0 Sample.needPeer
             (PlainErr "no peer"));
      [reflexivity | pass_before | reflexivity | reflexivity].
Defined.

(** ** Classification of the errors of Eval *)

Lemma layerError_internal (msg : string) :
  layerError (StatusErr codes.Internal msg).
Proof. exists codes.Internal, msg. split; reflexivity. Qed.

(** An error with which the hook loop returns is one the layer built, or
    the status error of a hook, handed back as it came. *)
Lemma runHooks_error (ctx : Context) (hs : list RPCAuthzHook) :
  forall k i i' e t,
    runHooks ctx k hs i = (i', Some e, t) ->
    layerError e
    \/ exists h seen, In h hs /\ snd (Hook h ctx seen) = Some e
                      /\ snd (status.FromError e) = true.
Proof.
  induction hs as [|h rest IH]; intros k i i' e t Hrun.
  - discriminate.
  - cbn [runHooks] in Hrun.
    destruct (Hook h ctx i) as [i1 [err|]] eqn:Eh.
    + destruct (snd (status.FromError err)) eqn:Ecls.
      * injection Hrun as _ -> _. right. exists h, i.
        rewrite Eh. repeat split; [now left|exact Ecls].
      * injection Hrun as _ <- _. left. apply layerError_internal.
    + destruct (runHooks ctx (S k) rest i1) as [[i2 e2] t2] eqn:Er.
      injection Hrun as _ -> _.
      destruct (IH _ _ _ _ _ Er) as [Hl|(h' & seen & Hin & Hh & Hc)].
      * now left.
      * right. exists h', seen. repeat split; [now right|exact Hh|exact Hc].
Qed.

Lemma Eval_error (g : Authorizer) (ctx : Context)
    (input : option RPCAuthInput) (e : error) :
  evalErr (Eval g ctx input) = Some e ->
  layerError e \/ hookStatusError g ctx e.
Proof.
  destruct input as [i|]; simpl.
  - destruct (runHooks ctx 0 (hooks g) i) as [[i1 [e1|]] t] eqn:Er.
    + simpl. intros [= ->]. exact (runHooks_error _ _ _ _ _ _ _ Er).
    + destruct (opa.Eval (policy g) ctx i1) as [allowed [perr|]]; simpl.
      * intros [= <-]. left. apply layerError_internal.
      * destruct allowed; simpl; [discriminate|].
        intros [= <-]. left.
        exists codes.PermissionDenied,
          "OPA policy does not permit this request". now split.
  - intros [= <-]. left.
    exists codes.InvalidArgument, "policy input cannot be nil". now split.
Qed.

(** Modelled builder: its only failure is Internal-classified. *)
Lemma NewRPCAuthInput_error (ctx : Context) (method : string)
    (msg : ProtoMessage) (err : error) :
  NewRPCAuthInput ctx method msg = inr err ->
  exists why, err = StatusErr codes.Internal why.
Proof.
  unfold NewRPCAuthInput. destruct (msgStructured msg) as [json|why].
  - discriminate.
  - intros [= <-]. now exists why.
Qed.

(** ** Shape of the calls of Eval *)

Lemma runHooks_calls (ctx : Context) (hs : list RPCAuthzHook) :
  forall k i,
    Forall (fun c => isHookOrPolicy c = true)
      (snd (runHooks ctx k hs i)).
Proof.
  induction hs as [|h rest IH]; intros k i; cbn [runHooks].
  - constructor.
  - destruct (Hook h ctx i) as [i1 [err|]].
    + destruct (snd (status.FromError err)); repeat constructor.
    + specialize (IH (S k) i1).
      destruct (runHooks ctx (S k) rest i1) as [[i2 e2] t2].
      constructor; [reflexivity|exact IH].
Qed.

Lemma Eval_calls (g : Authorizer) (ctx : Context)
    (input : option RPCAuthInput) :
  exists t, evalCalls (Eval g ctx input) = CallEval input :: t
            /\ Forall (fun c => isHookOrPolicy c = true) t.
Proof.
  destruct input as [i|]; simpl.
  - pose proof (runHooks_calls ctx (hooks g) 0 i) as Ht.
    destruct (runHooks ctx 0 (hooks g) i) as [[i1 [e1|]] t]; simpl in Ht.
    + exists t. now split.
    + assert (Forall (fun c => isHookOrPolicy c = true)
                (t ++ [CallPolicy i1])) as Ht'.
      { apply Forall_app. split; [exact Ht|]. repeat constructor. }
      destruct (opa.Eval (policy g) ctx i1) as [allowed [perr|]];
        [|destruct allowed]; simpl; eexists; split; try reflexivity;
        exact Ht'.
  - exists []. split; [reflexivity|constructor].
Qed.

Lemma count_app (f : Call -> bool) (a b : list Call) :
  count f (a ++ b) = count f a + count f b.
Proof. unfold count. now rewrite filter_app, length_app. Qed.

Lemma count_none (f p : Call -> bool) (t : list Call) :
  (forall c, p c = true -> f c = false) ->
  Forall (fun c => p c = true) t -> count f t = 0.
Proof.
  intros Hfp Ht. induction Ht as [|c t Hc _ IH]; [reflexivity|].
  unfold count in *. simpl. now rewrite (Hfp c Hc).
Qed.

Lemma sentMessages_app (a b : list Call) :
  sentMessages (a ++ b) = sentMessages a ++ sentMessages b.
Proof.
  induction a as [|c a IH]; [reflexivity|].
  destruct c; simpl; now rewrite IH.
Qed.

Lemma sentMessages_none (t : list Call) :
  Forall (fun c => isHookOrPolicy c = true) t -> sentMessages t = [].
Proof.
  induction 1 as [|c t Hc _ IH]; [reflexivity|].
  destruct c; try discriminate; exact IH.
Qed.

Lemma Eval_count_eval (g : Authorizer) (ctx : Context)
    (input : option RPCAuthInput) :
  count isEval (evalCalls (Eval g ctx input)) = 1.
Proof.
  destruct (Eval_calls g ctx input) as (t & -> & Ht).
  change (S (count isEval t) = 1). f_equal.
  apply (count_none isEval isHookOrPolicy); [|exact Ht].
  intros [] ?; reflexivity || discriminate.
Qed.

Lemma Eval_sends_nothing (g : Authorizer) (ctx : Context)
    (input : option RPCAuthInput) :
  sentMessages (evalCalls (Eval g ctx input)) = [].
Proof.
  destruct (Eval_calls g ctx input) as (t & -> & Ht).
  simpl. now apply sentMessages_none.
Qed.

(** ** The error surface *)

Arguments Eval : simpl never.

(** C5, amended: every error returned by [Eval] or by an adapter is either
    one the layer classified as InvalidArgument, Internal or
    PermissionDenied, or the status error of a registered hook handed back
    unchanged (with whatever code the hook gave it), or, for an adapter,
    the error of the handler, invoker or stream it forwards to.  An error
    of the streamer is wrapped as Internal. *)
Theorem C5_error_surface :
  (forall g ctx input e,
     evalErr (Eval g ctx input) = Some e ->
     layerError e \/ hookStatusError g ctx e)
  /\ (forall g ctx req info handler e,
        snd (fst (Authorize g ctx req info handler)) = Some e ->
        layerError e \/ hookStatusError g ctx e
        \/ snd (handler ctx req) = Some e)
  /\ (forall g ctx method req reply invoker e,
        snd (fst (AuthorizeClient g ctx method req reply invoker)) = Some e ->
        layerError e \/ hookStatusError g ctx e
        \/ snd (invoker ctx method req reply) = Some e)
  /\ (forall (Wire : Type) g ctx method (streamer : Streamer Wire) w e,
        snd (fst (fst (AuthorizeClientStream g ctx method streamer w)))
        = Some e ->
        layerError e)
  /\ (forall (Wire : Type) (s : wrappedClientStream Wire) req w e,
        fst (fst (SendMsg s req w)) = Some e ->
        layerError e
        \/ hookStatusError (wcsAuthz s) (csContext (wcsClientStream s)) e
        \/ fst (csSendMsg (wcsClientStream s) req w) = Some e)
  /\ (forall (Wire : Type) (s : wrappedStream Wire) dest w e,
        snd (fst (fst (RecvMsg s dest w))) = Some e ->
        layerError e
        \/ hookStatusError (wsAuthz s) (ssContext (wsServerStream s)) e
        \/ snd (fst (ssRecvMsg (wsServerStream s) dest w)) = Some e).
Proof.
  repeat apply conj.
  - exact Eval_error.
  - intros g ctx req info handler e. unfold Authorize.
    destruct (asProtoMessage req) as [msg|]; simpl.
    + destruct (NewRPCAuthInput ctx (grpc.FullMethod info) msg)
        as [authInput|err]; simpl.
      * destruct (evalErr (Eval g ctx (Some authInput))) as [e1|] eqn:Ee;
          simpl.
        -- intros [= <-]. destruct (Eval_error _ _ _ _ Ee); auto.
        -- auto.
      * intros [= <-]. left. apply layerError_internal.
    + intros [= <-]. left. apply layerError_internal.
  - intros g ctx method req reply invoker e. unfold AuthorizeClient.
    destruct (asProtoMessage req) as [msg|]; simpl.
    + destruct (NewRPCAuthInput ctx method msg) as [authInput|err]; simpl.
      * destruct (evalErr (Eval g ctx (Some authInput))) as [e1|] eqn:Ee;
          simpl.
        -- intros [= <-]. destruct (Eval_error _ _ _ _ Ee); auto.
        -- auto.
      * intros [= <-]. left. apply layerError_internal.
    + intros [= <-]. left. apply layerError_internal.
  - intros Wire g ctx method streamer w e. unfold AuthorizeClientStream.
    destruct (streamer ctx method w) as [[cs|err] w1]; simpl.
    + discriminate.
    + intros [= <-]. apply layerError_internal.
  - intros Wire s req w e. unfold SendMsg.
    destruct (asProtoMessage req) as [msg|]; simpl.
    + destruct (NewRPCAuthInput (csContext (wcsClientStream s))
                  (wcsMethod s) msg) as [authInput|err] eqn:Eb; simpl.
      * destruct (evalErr (Eval (wcsAuthz s)
                             (csContext (wcsClientStream s))
                             (Some authInput))) as [e1|] eqn:Ee; simpl.
        -- intros [= <-]. destruct (Eval_error _ _ _ _ Ee); auto.
        -- auto.
      * intros [= <-]. left.
        destruct (NewRPCAuthInput_error _ _ _ _ Eb) as [why ->].
        apply layerError_internal.
    + intros [= <-]. left. apply layerError_internal.
  - intros Wire s dest w e. unfold RecvMsg.
    destruct (ssRecvMsg (wsServerStream s) dest w)
      as [[req1 [rerr|]] w1]; simpl.
    + auto.
    + destruct (asProtoMessage req1) as [msg|]; simpl.
      * destruct (NewRPCAuthInput (ssContext (wsServerStream s))
                    (StreamFullMethod (wsInfo s)) msg)
          as [authInput|err] eqn:Eb; simpl.
        -- intro Ee. destruct (Eval_error _ _ _ _ Ee); auto.
        -- intros [= <-]. left.
           destruct (NewRPCAuthInput_error _ _ _ _ Eb) as [why ->].
           apply layerError_internal.
      * intros [= <-]. left. apply layerError_internal.
Qed.

(** A hook that rejects with an Unauthenticated status: [Eval] returns that
    status, whose code is none of the three. *)
Lemma C5_counterexample :
  evalErr (Eval (New Sample.allowAll [Sample.unauthHook]) Sample.ctx
             (Some Sample.input))
  = Some (StatusErr codes.Unauthenticated "no token")
  /\ ownCode
       (status.Code
          (evalErr (Eval (New Sample.allowAll [Sample.unauthHook])
                      Sample.ctx (Some Sample.input)))) = false.
Proof. split; reflexivity. Qed.

Lemma C5_witness :
  layerError (StatusErr codes.Unauthenticated "no token")
  \/ hookStatusError (New Sample.allowAll [Sample.unauthHook]) Sample.ctx
       (StatusErr codes.Unauthenticated "no token").
Proof.
  apply (proj1 C5_error_surface
           (New Sample.allowAll [Sample.unauthHook]) Sample.ctx
           (Some Sample.input)).
  reflexivity.
Defined.

(** ** Failure to build the input *)

(** C6, amended: when the input cannot be built from the message, each of
    the four adapters fails with an Internal-classified error, calls no
    hook and not the policy, and does not forward (no handler, invoker or
    underlying send is called, the wire of a client stream is untouched).
    On the server receive path the underlying receive has taken place
    before that: the wire has advanced, the destination is filled, and that
    receive is the only call made. *)
Theorem C6_input_building_failure :
  (forall g ctx msg info handler err,
     NewRPCAuthInput ctx (grpc.FullMethod info) msg = inr err ->
     Authorize g ctx (VProto msg) info handler
     = ((None,
         Some (StatusErr codes.Internal
                 ("unable to create auth input: " ++ ErrorString err)%string)),
        []))
  /\ (forall g ctx method msg reply invoker err,
        NewRPCAuthInput ctx method msg = inr err ->
        AuthorizeClient g ctx method (VProto msg) reply invoker
        = ((reply,
            Some (StatusErr codes.Internal
                    ("unable to create auth input: "
                       ++ ErrorString err)%string)),
           []))
  /\ (forall (Wire : Type) (s : wrappedClientStream Wire) msg w err,
        NewRPCAuthInput (csContext (wcsClientStream s)) (wcsMethod s) msg
        = inr err ->
        SendMsg s (VProto msg) w = ((Some err, w), [])
        /\ status.Code (Some err) = codes.Internal)
  /\ (forall (Wire : Type) (s : wrappedStream Wire) dest w msg w1 err,
        ssRecvMsg (wsServerStream s) dest w = ((VProto msg, None), w1) ->
        NewRPCAuthInput (ssContext (wsServerStream s))
          (StreamFullMethod (wsInfo s)) msg = inr err ->
        RecvMsg s dest w
        = (((VProto msg, Some err), w1), [CallRecv dest (VProto msg) None])
        /\ status.Code (Some err) = codes.Internal).
Proof.
  repeat apply conj.
  - intros g ctx msg info handler err Hb. unfold Authorize. simpl.
    now rewrite Hb.
  - intros g ctx method msg reply invoker err Hb. unfold AuthorizeClient.
    simpl. now rewrite Hb.
  - intros Wire s msg w err Hb. unfold SendMsg. simpl. rewrite Hb.
    destruct (NewRPCAuthInput_error _ _ _ _ Hb) as [why ->]. now split.
  - intros Wire s dest w msg w1 err Hr Hb. unfold RecvMsg.
    rewrite Hr. simpl. rewrite Hb.
    destruct (NewRPCAuthInput_error _ _ _ _ Hb) as [why ->]. now split.
Qed.

(** A message that cannot be converted arrives on a server stream: the
    input cannot be built, and the receive call has consumed the message
    from the wire by calling the underlying receive. *)
Lemma C6_counterexample :
  NewRPCAuthInput Sample.ctx "/Exec.Exec/Run" Sample.opaque
  = inr (StatusErr codes.Internal "unable to resolve type URL")
  /\ snd (RecvMsg (Sample.wrappedServer (New Sample.allowAll []))
            (VOther "<nil>") [VProto Sample.opaque])
     = [CallRecv (VOther "<nil>") (VProto Sample.opaque) None]
  /\ snd (fst (RecvMsg (Sample.wrappedServer (New Sample.allowAll []))
                 (VOther "<nil>") [VProto Sample.opaque]))
     <> [VProto Sample.opaque].
Proof. repeat split. discriminate. Qed.

Lemma C6_witness :
  RecvMsg (Sample.wrappedServer (New Sample.allowAll []))
    (VOther "<nil>") [VProto Sample.opaque]
  = (((VProto Sample.opaque,
       Some (StatusErr codes.Internal "unable to resolve type URL")), []),
     [CallRecv (VOther "<nil>") (VProto Sample.opaque) None])
  /\ status.Code
       (Some (StatusErr codes.Internal "unable to resolve type URL"))
     = codes.Internal.
Proof.
  apply (proj2 (proj2 (proj2 C6_input_building_failure))
           (list Value) (Sample.wrappedServer (New Sample.allowAll []))
           (VOther "<nil>") [VProto Sample.opaque] Sample.opaque []).
  - reflexivity.
  - reflexivity.
Defined.

(** ** The server receive path *)

(** C7: [RecvMsg] on the wrapped server stream first calls the underlying
    receive with the destination.  If that fails, its error is returned
    and nothing else is called.  Otherwise the input is built from the
    filled destination and [Eval] runs on it, after the receive: what
    [RecvMsg] returns is what [Eval] returns, so on a failure of [Eval]
    the call fails and hands nothing to the handler, and on success it
    returns [nil] with the received message in the destination.  A
    received value from which no input can be built is rejected without
    [Eval]. *)
Theorem C7_receive_then_authorize (Wire : Type) (s : wrappedStream Wire)
    (dest filled : Value) (rerr : option error) (w w1 : Wire) :
  ssRecvMsg (wsServerStream s) dest w = ((filled, rerr), w1) ->
  let ctx := ssContext (wsServerStream s) in
  let method := StreamFullMethod (wsInfo s) in
  let r := RecvMsg s dest w in
  (exists t, snd r = CallRecv dest filled rerr :: t)
  /\ snd (fst r) = w1
  /\ fst (fst (fst r)) = filled
  /\ (forall err, rerr = Some err ->
        snd (fst (fst r)) = Some err
        /\ snd r = [CallRecv dest filled rerr])
  /\ (forall authInput,
        rerr = None ->
        buildsInput ctx method filled = Some authInput ->
        let ev := Eval (wsAuthz s) ctx (Some authInput) in
        snd r = CallRecv dest filled None :: evalCalls ev
        /\ snd (fst (fst r)) = evalErr ev
        /\ (forall err, evalErr ev = Some err ->
              delivered (fst (fst r)) = None)
        /\ (evalErr ev = None -> delivered (fst (fst r)) = Some filled))
  /\ (rerr = None ->
      buildsInput ctx method filled = None ->
      snd r = [CallRecv dest filled None]
      /\ exists err, snd (fst (fst r)) = Some err).
Proof.
  intros Hr ctx method r. subst r ctx method.
  unfold RecvMsg, buildsInput. rewrite Hr.
  destruct rerr as [err0|].
  - cbn [fst snd].
    split; [now eexists|]. split; [reflexivity|]. split; [reflexivity|].
    split; [intros err [= <-]; now split|].
    split; [intros authInput Hnone|intros Hnone]; discriminate.
  - destruct (asProtoMessage filled) as [msg|].
    + destruct (NewRPCAuthInput (ssContext (wsServerStream s))
                  (StreamFullMethod (wsInfo s)) msg) as [built|err].
      * cbn [fst snd].
        split; [now eexists|]. split; [reflexivity|]. split; [reflexivity|].
        split; [intros err Hsome; discriminate|].
        split; [|intros _ Hnone; discriminate].
        intros authInput _ [= <-]. cbn zeta. unfold delivered. cbn [fst snd].
        split; [reflexivity|]. split; [reflexivity|].
        split; [intros err ->|intros ->]; reflexivity.
      * cbn [fst snd].
        split; [now eexists|]. split; [reflexivity|]. split; [reflexivity|].
        split; [intros err0 Hsome; discriminate|].
        split; [intros authInput _ Hsome; discriminate|].
        intros _ _. split; [reflexivity|now eexists].
    + cbn [fst snd].
      split; [now eexists|]. split; [reflexivity|]. split; [reflexivity|].
      split; [intros err0 Hsome; discriminate|].
      split; [intros authInput _ Hsome; discriminate|].
      intros _ _. split; [reflexivity|now eexists].
Qed.

Lemma C7_witness :
  delivered
    (fst (fst (RecvMsg (Sample.wrappedServer (New Sample.noRm []))
                 (VOther "<nil>") [VProto Sample.run])))
  = Some (VProto Sample.run).
Proof.
  destruct (C7_receive_then_authorize (list Value)
              (Sample.wrappedServer (New Sample.noRm []))
              (VOther "<nil>") (VProto Sample.run) None
              [VProto Sample.run] [] eq_refl)
    as (_ & _ & _ & _ & Hauth & _).
  destruct (Hauth _ eq_refl eq_refl) as (_ & _ & _ & Hok).
  apply Hok. reflexivity.
Defined.

(** ** The client send path *)

Section ClientSend.

Variable Wire : Type.
Variable s : wrappedClientStream Wire.

Lemma SendMsg_refused (req : Value) :
  sendPermitted s req = false ->
  exists err t,
    sentMessages t = []
    /\ forall w, SendMsg s req w = ((Some err, w), t).
Proof.
  unfold sendPermitted, permitted, buildsInput, SendMsg.
  destruct (asProtoMessage req) as [msg|].
  - destruct (NewRPCAuthInput (csContext (wcsClientStream s))
                (wcsMethod s) msg) as [authInput|err].
    + destruct (evalErr (Eval (wcsAuthz s) (csContext (wcsClientStream s))
                           (Some authInput))) as [err|] eqn:Ee.
      * intros _. exists err. eexists. split; [|reflexivity].
        apply Eval_sends_nothing.
      * discriminate.
    + intros _. exists err, []. now split.
  - intros _. eexists. exists []. split; reflexivity.
Qed.

Lemma SendMsg_forwarded (req : Value) :
  sendPermitted s req = true ->
  exists t,
    sentMessages t = [req]
    /\ forall w,
         SendMsg s req w = (csSendMsg (wcsClientStream s) req w, t).
Proof.
  unfold sendPermitted, permitted, buildsInput, SendMsg.
  destruct (asProtoMessage req) as [msg|]; [|discriminate].
  destruct (NewRPCAuthInput (csContext (wcsClientStream s))
              (wcsMethod s) msg) as [authInput|err]; [|discriminate].
  destruct (evalErr (Eval (wcsAuthz s) (csContext (wcsClientStream s))
                       (Some authInput))) as [err|] eqn:Ee;
    [discriminate|].
  intros _. eexists. split; [|reflexivity].
  now rewrite sentMessages_app, Eval_sends_nothing.
Qed.

Lemma SendMsg_sent (req : Value) (w : Wire) :
  sentMessages (snd (SendMsg s req w)) = if sendPermitted s req then [req] else [].
Proof.
  destruct (sendPermitted s req) eqn:Eok.
  - destruct (SendMsg_forwarded req Eok) as (t & Ht & Hs).
    now rewrite Hs.
  - destruct (SendMsg_refused req Eok) as (err & t & Ht & Hs).
    now rewrite Hs.
Qed.

Lemma SendMsgs_sent (reqs : list Value) :
  forall w, sentMessages (snd (SendMsgs s reqs w)) = filter (sendPermitted s) reqs.
Proof.
  induction reqs as [|req rest IH]; intro w; [reflexivity|].
  cbn [SendMsgs filter].
  pose proof (SendMsg_sent req w) as Hone.
  destruct (SendMsg s req w) as [[r w1] t1].
  specialize (IH w1).
  destruct (SendMsgs s rest w1) as [[rs w2] t2].
  simpl in *. rewrite sentMessages_app, Hone, IH.
  now destruct (sendPermitted s req).
Qed.

(** C8: on one wrapped client stream the authorization of a message is a
    function of the message (with the stream's method, context and
    authorizer): the calls made by [SendMsg] are the same whatever the
    state of the wire, that is whatever was sent or refused before.  A
    message that does not pass is refused with the same error in every
    state, the wire is left as it was and the underlying send is not
    called; a message that passes is handed to the underlying send, whose
    result is returned.  For any sequence of messages handed to the
    stream, the messages reaching the underlying send are exactly those
    that pass, in order, whatever happened to the ones before. *)
Theorem C8_send_independent_of_history :
  (forall req w w', snd (SendMsg s req w) = snd (SendMsg s req w'))
  /\ (forall req, sendPermitted s req = false ->
        exists err,
          (forall w, fst (SendMsg s req w) = (Some err, w))
          /\ forall w, sentMessages (snd (SendMsg s req w)) = [])
  /\ (forall req w, sendPermitted s req = true ->
        fst (SendMsg s req w) = csSendMsg (wcsClientStream s) req w
        /\ sentMessages (snd (SendMsg s req w)) = [req])
  /\ (forall reqs w,
        sentMessages (snd (SendMsgs s reqs w)) = filter (sendPermitted s) reqs).
Proof.
  repeat apply conj.
  - intros req w w'. destruct (sendPermitted s req) eqn:Eok.
    + destruct (SendMsg_forwarded req Eok) as (t & _ & Hs).
      now rewrite !Hs.
    + destruct (SendMsg_refused req Eok) as (err & t & _ & Hs).
      now rewrite !Hs.
  - intros req Eok.
    destruct (SendMsg_refused req Eok) as (err & t & Ht & Hs).
    exists err. split; intro w; now rewrite Hs.
  - intros req w Eok.
    destruct (SendMsg_forwarded req Eok) as (t & Ht & Hs).
    now rewrite Hs.
  - exact SendMsgs_sent.
Qed.

End ClientSend.

(** Three messages on one stream, the second one not permitted: the first
    and the third reach the underlying send. *)
Lemma C8_witness :
  sentMessages
    (snd (SendMsgs (Sample.wrappedClient (New Sample.noRm []))
            [VProto Sample.run; VProto Sample.rm; VProto Sample.run] []))
  = [VProto Sample.run; VProto Sample.run].
Proof.
  rewrite (proj2 (proj2 (proj2
             (C8_send_independent_of_history (list Value)
                (Sample.wrappedClient (New Sample.noRm [])))))).
  reflexivity.
Defined.

Example SendMsgs_allow_deny_allow :
  fst (SendMsgs (Sample.wrappedClient (New Sample.noRm []))
         [VProto Sample.run; VProto Sample.rm; VProto Sample.run] [])
  = ([None;
      Some (StatusErr codes.PermissionDenied
              "OPA policy does not permit this request");
      None],
     [VProto Sample.run; VProto Sample.run]).
Proof. reflexivity. Qed.

(** ** The server stream *)

Lemma count_cons (f : Call -> bool) (c : Call) (t : list Call) :
  count f (c :: t) = (if f c then 1 else 0) + count f t.
Proof. unfold count. simpl. now destruct (f c). Qed.

Lemma Eval_count_zero (f : Call -> bool) (g : Authorizer) (ctx : Context)
    (input : option RPCAuthInput) :
  f (CallEval input) = false ->
  (forall c, isHookOrPolicy c = true -> f c = false) ->
  count f (evalCalls (Eval g ctx input)) = 0.
Proof.
  intros Hf Hhp. destruct (Eval_calls g ctx input) as (t & -> & Ht).
  rewrite count_cons, Hf. simpl.
  now apply (count_none f isHookOrPolicy).
Qed.

Section ServerStreamCounts.

Variable Wire : Type.
Variable s : wrappedStream Wire.

(** One receive call runs [Eval] once when the underlying receive returned
    a message from which an input is built, and not at all otherwise. *)
Lemma RecvMsg_counts (dest : Value) (w : Wire) :
  count isEval (snd (RecvMsg s dest w))
  = count (receivedBuildable s) (snd (RecvMsg s dest w))
  /\ count (receivedBuildable s) (snd (RecvMsg s dest w))
     <= count isReceived (snd (RecvMsg s dest w)).
Proof.
  unfold RecvMsg.
  destruct (ssRecvMsg (wsServerStream s) dest w) as [[req1 [rerr|]] w1].
  - split; [reflexivity|]. unfold count. simpl. lia.
  - destruct (asProtoMessage req1) as [msg|] eqn:Ep.
    + destruct (NewRPCAuthInput (ssContext (wsServerStream s))
                  (StreamFullMethod (wsInfo s)) msg)
        as [authInput|err] eqn:Eb.
      * cbn [snd]. rewrite !count_cons, Eval_count_eval.
        rewrite !Eval_count_zero;
          try reflexivity; try (intros [] ?; reflexivity || discriminate).
        unfold receivedBuildable, isReceivedBuildable, buildsInput.
        rewrite Ep, Eb. simpl. split; lia.
      * cbn [snd]. rewrite !count_cons.
        unfold receivedBuildable, isReceivedBuildable, buildsInput.
        rewrite Ep, Eb. simpl. split; [reflexivity|]. unfold count. simpl.
        lia.
    + cbn [snd]. rewrite !count_cons.
      unfold receivedBuildable, isReceivedBuildable, buildsInput.
      rewrite Ep. simpl. split; [reflexivity|]. unfold count. simpl. lia.
Qed.

Lemma runOnWrapped_counts (p : StreamProg) :
  forall w,
    count isEval (snd (runOnWrapped s p w))
    = count (receivedBuildable s) (snd (runOnWrapped s p w))
    /\ count (receivedBuildable s) (snd (runOnWrapped s p w))
       <= count isReceived (snd (runOnWrapped s p w)).
Proof.
  induction p as [result|dest k IH|m k IH]; intro w; cbn [runOnWrapped].
  - split; [reflexivity|]. unfold count. simpl. lia.
  - pose proof (RecvMsg_counts dest w) as [H1 H2].
    destruct (RecvMsg s dest w) as [[[req1 err] w1] t1].
    specialize (IH req1 err w1).
    destruct (runOnWrapped s (k req1 err) w1) as [r t2].
    cbn [snd] in *. rewrite !count_app. lia.
  - unfold ServerSendMsg.
    destruct (ssSendMsg (wsServerStream s) m w) as [err w1].
    specialize (IH err w1).
    destruct (runOnWrapped s (k err) w1) as [r t2].
    cbn [snd] in *. rewrite !count_app. unfold count at 1 3 5. simpl.
    exact IH.
Qed.

End ServerStreamCounts.

(** C10, amended: [AuthorizeStream] runs no check of its own: it wraps the
    stream and calls the handler, whose result it returns.  A send on the
    wrapped stream goes to the underlying stream without [Eval].  Over the
    whole stream, [Eval] runs once for each message that the underlying
    receive returned and from which an input could be built, and at no
    other time; in particular never more often than messages were
    received. *)
Theorem C10_server_stream_eval_count (Wire : Type) (g : Authorizer)
    (srv : Value) (ss : ServerStream Wire) (info : StreamServerInfo)
    (handler : StreamHandler) (w : Wire) :
  let wrapped := {| wsServerStream := ss; wsInfo := info; wsAuthz := g |} in
  let run := AuthorizeStream g srv ss info handler w in
  fst run = fst (runOnWrapped wrapped (handler srv (ssContext ss)) w)
  /\ snd run
     = CallStreamHandler
         :: snd (runOnWrapped wrapped (handler srv (ssContext ss)) w)
  /\ (forall m w',
        ServerSendMsg wrapped m w' = (ssSendMsg ss m w', [CallSend m]))
  /\ (forall dest w',
        count isEval (snd (RecvMsg wrapped dest w'))
        = count (receivedBuildable wrapped) (snd (RecvMsg wrapped dest w')))
  /\ count isEval (snd run) = count (receivedBuildable wrapped) (snd run)
  /\ count isEval (snd run) <= count isReceived (snd run).
Proof.
  intros wrapped run. subst run. unfold AuthorizeStream. fold wrapped.
  pose proof (runOnWrapped_counts Wire wrapped
                (handler srv (ssContext ss)) w) as [H1 H2].
  destruct (runOnWrapped wrapped (handler srv (ssContext ss)) w) as [r t].
  cbn [fst snd] in *. rewrite !count_cons. simpl.
  repeat split; try assumption; try lia.
  intros dest w'. apply RecvMsg_counts.
Qed.

(** One message arrives and cannot be converted: it is received, and
    [Eval] does not run. *)
Lemma C10_counterexample :
  count isReceived
    (snd (AuthorizeStream (New Sample.allowAll []) (VOther "srv")
            Sample.serverStream Sample.streamInfo Sample.recvOnce
            [VProto Sample.opaque])) = 1
  /\ count isEval
       (snd (AuthorizeStream (New Sample.allowAll []) (VOther "srv")
               Sample.serverStream Sample.streamInfo Sample.recvOnce
               [VProto Sample.opaque])) = 0.
Proof. split; reflexivity. Qed.

(** ** The adapters on sample calls *)

Example Eval_policy_error :
  evalErr (Eval (New Sample.broken [Sample.setPeer]) Sample.ctx
             (Some Sample.input))
  = Some (StatusErr codes.Internal
            "authz policy evaluation error: rego: eval failed").
Proof. reflexivity. Qed.

Example Authorize_forwards_when_allowed :
  fst (Authorize (New Sample.allowAll [Sample.setPeer]) Sample.ctx
         (VProto Sample.run) Sample.info Sample.handler)
  = (Some (VProto Sample.run), None)
  /\ count isEval
       (snd (Authorize (New Sample.allowAll [Sample.setPeer]) Sample.ctx
               (VProto Sample.run) Sample.info Sample.handler)) = 1.
Proof. split; reflexivity. Qed.

Example Authorize_rejects_when_denied :
  Authorize (New Sample.noRm []) Sample.ctx (VProto Sample.rm) Sample.info
    Sample.handler
  = ((None,
      Some (StatusErr codes.PermissionDenied
              "OPA policy does not permit this request")),
     evalCalls
       (Eval (New Sample.noRm []) Sample.ctx
          (buildsInput Sample.ctx "/Exec.Exec/Run" (VProto Sample.rm)))).
Proof. reflexivity. Qed.

Example AuthorizeClient_not_a_proto_message :
  AuthorizeClient (New Sample.allowAll []) Sample.ctx "/Exec.Exec/Run"
    (VOther "string") (VOther "<nil>") Sample.invoker
  = ((VOther "<nil>",
      Some (StatusErr codes.Internal
              "unable to authorize request of type string which is not proto.Message")),
     []).
Proof. reflexivity. Qed.

Example RecvMsg_denied_message_not_delivered :
  delivered
    (fst (fst (RecvMsg (Sample.wrappedServer (New Sample.noRm []))
                 (VOther "<nil>") [VProto Sample.rm; VProto Sample.run])))
  = None
  /\ snd (fst (RecvMsg (Sample.wrappedServer (New Sample.noRm []))
                 (VOther "<nil>") [VProto Sample.rm; VProto Sample.run]))
     = [VProto Sample.run].
Proof. split; reflexivity. Qed.

(** * Further properties of the authorizer *)

Section EvalOutcomes.

Variables (g : Authorizer) (ctx : Context) (i : RPCAuthInput).

(** Either every hook passes, or there is a first hook that fails. *)
Lemma hooks_pass_or_first_failure :
  hooksPassBefore g ctx i (List.length (hooks g))
  \/ exists k h e,
       nth_error (hooks g) k = Some h
       /\ hooksPassBefore g ctx i k
       /\ snd (Hook h ctx (seenBy g ctx i k)) = Some e.
Proof.
  assert (forall n, n <= List.length (hooks g) ->
            hooksPassBefore g ctx i n
            \/ exists k h e,
                 nth_error (hooks g) k = Some h
                 /\ hooksPassBefore g ctx i k
                 /\ snd (Hook h ctx (seenBy g ctx i k)) = Some e) as Hn.
  { induction n as [|n IH]; intro Hle.
    - left. intros j h Hj. lia.
    - destruct IH as [Hpass|Hfail]; [lia| |now right].
      destruct (nth_error (hooks g) n) as [h|] eqn:Hnth.
      + destruct (snd (Hook h ctx (seenBy g ctx i n))) as [e|] eqn:Hh.
        * right. now exists n, h, e.
        * left. intros j hj Hj Hjn.
          destruct (Nat.eq_dec j n) as [->|Hne].
          -- rewrite Hnth in Hjn. now injection Hjn as <-.
          -- apply (Hpass j hj); [lia|exact Hjn].
      + apply nth_error_None in Hnth. lia. }
  apply Hn. lia.
Qed.

(** [Eval] grants only on the policy's word: it returns [nil] exactly when
    every hook returned [nil] on the input it was handed and the policy
    evaluator returned [(true, nil)] on the input the hooks left. *)
Theorem Eval_nil_iff_granted :
  evalErr (Eval g ctx (Some i)) = None
  <-> hooksPassBefore g ctx i (List.length (hooks g))
      /\ opa.Eval (policy g) ctx (inputAfter ctx (hooks g) i) = (true, None).
Proof.
  split.
  - intro Hnil.
    destruct hooks_pass_or_first_failure as [Hpass|(k & h & e & Hk & Hp & Hf)].
    + split; [exact Hpass|]. revert Hnil. unfold Eval.
      rewrite (hooks_all_pass g ctx i Hpass).
      destruct (opa.Eval (policy g) ctx (inputAfter ctx (hooks g) i))
        as [[|] [perr|]]; simpl; intro; discriminate || reflexivity.
    + rewrite (Eval_first_failure g ctx i k h e Hk Hp Hf) in Hnil.
      simpl in Hnil. destruct e; discriminate.
  - intros [Hpass Hpol]. unfold Eval.
    now rewrite (hooks_all_pass g ctx i Hpass), Hpol.
Qed.

(** An error of the policy evaluator is an Internal failure carrying the
    evaluator's message, whatever decision came with the error: it is
    never a grant and never a PermissionDenied. *)
Theorem Eval_policy_error_is_internal (allowed : bool) (err : error) :
  hooksPassBefore g ctx i (List.length (hooks g)) ->
  opa.Eval (policy g) ctx (inputAfter ctx (hooks g) i)
  = (allowed, Some err) ->
  evalErr (Eval g ctx (Some i))
  = Some (StatusErr codes.Internal
            ("authz policy evaluation error: " ++ ErrorString err)%string).
Proof.
  intros Hpass Hpol. unfold Eval.
  now rewrite (hooks_all_pass g ctx i Hpass), Hpol.
Qed.

(** The shape of every run of [Eval] on a non-null input: some number [n]
    of the registered hooks is called, each once and in order; the policy
    evaluator is called at most once, last, and only when all hooks were
    called; and the caller's input is left as the hooks that ran wrote it,
    whether the request is granted, denied or failed. *)
Theorem Eval_run_shape :
  exists n,
    n <= List.length (hooks g)
    /\ evalInput (Eval g ctx (Some i)) = Some (seenBy g ctx i n)
    /\ (evalCalls (Eval g ctx (Some i))
        = CallEval (Some i) :: hookCalls g ctx i n
        \/ n = List.length (hooks g)
           /\ evalCalls (Eval g ctx (Some i))
              = CallEval (Some i) :: hookCalls g ctx i n
                  ++ [CallPolicy (seenBy g ctx i n)]).
Proof.
  destruct hooks_pass_or_first_failure as [Hpass|(k & h & e & Hk & Hp & Hf)].
  - exists (List.length (hooks g)). split; [lia|].
    rewrite seenBy_all. unfold Eval.
    rewrite (hooks_all_pass g ctx i Hpass).
    destruct (opa.Eval (policy g) ctx (inputAfter ctx (hooks g) i))
      as [[|] [perr|]]; simpl; split; try reflexivity; right; now split.
  - exists (S k). split.
    + apply Nat.le_succ_l. apply nth_error_Some. congruence.
    + rewrite (Eval_first_failure g ctx i k h e Hk Hp Hf). simpl.
      split; [reflexivity|now left].
Qed.

End EvalOutcomes.

Lemma Eval_policy_error_is_internal_witness :
  evalErr (Eval (New Sample.broken [Sample.setPeer]) Sample.ctx
             (Some Sample.input))
  = Some (StatusErr codes.Internal
            "authz policy evaluation error: rego: eval failed").
Proof.
  apply (Eval_policy_error_is_internal
           (New Sample.broken [Sample.setPeer]) Sample.ctx Sample.input
           false (PlainErr "rego: eval failed")).
  - pass_before.
  - reflexivity.
Defined.

(** * Further properties of the adapters *)

Lemma Eval_forwards_nothing (g : Authorizer) (ctx : Context)
    (input : option RPCAuthInput) :
  count isForward (evalCalls (Eval g ctx input)) = 0.
Proof.
  apply Eval_count_zero; [reflexivity|].
  intros [] ?; reflexivity || discriminate.
Qed.

(** The unary server interceptor is a gate in front of the handler.  A
    request that passes authorization is handed to the handler, once and
    after [Eval], and the handler's response and error are returned as they
    are.  Any other request gets a nil response and an error, and the
    handler is not called; when no input could be built from it, [Eval]
    is not called either and the error is Internal. *)
Theorem Authorize_gates_handler (g : Authorizer) (ctx : Context)
    (req : Value) (info : grpc.UnaryServerInfo)
    (handler : grpc.UnaryHandler) :
  let run := Authorize g ctx req info handler in
  let ok := permitted g ctx (grpc.FullMethod info) req in
  (ok = true ->
   fst run = handler ctx req
   /\ exists t, snd run = t ++ [CallHandler req]
                /\ count isForward t = 0 /\ count isEval t = 1)
  /\ (ok = false ->
      (exists err, fst run = (None, Some err))
      /\ count isForward (snd run) = 0)
  /\ (buildsInput ctx (grpc.FullMethod info) req = None ->
      snd run = [] /\ status.Code (snd (fst run)) = codes.Internal).
Proof.
  intros run ok. subst run ok.
  unfold permitted, buildsInput, Authorize.
  destruct (asProtoMessage req) as [msg|].
  - destruct (NewRPCAuthInput ctx (grpc.FullMethod info) msg)
      as [authInput|err].
    + destruct (evalErr (Eval g ctx (Some authInput))) as [e|] eqn:Ee.
      * repeat split; try discriminate; [now exists e|].
        apply Eval_forwards_nothing.
      * repeat split; try discriminate.
        eexists. split; [reflexivity|]. split.
        -- apply Eval_forwards_nothing.
        -- apply Eval_count_eval.
    + repeat split; try discriminate. now eexists.
  - repeat split; try discriminate. now eexists.
Qed.

(** The unary client interceptor is the same gate in front of the invoker:
    a request that passes is sent with the caller's method, request and
    reply; any other request is not sent, the reply is left as it was and an
    error is returned. *)
Theorem AuthorizeClient_gates_invoker (g : Authorizer) (ctx : Context)
    (method : string) (req reply : Value) (invoker : grpc.UnaryInvoker) :
  let run := AuthorizeClient g ctx method req reply invoker in
  let ok := permitted g ctx method req in
  (ok = true ->
   fst run = invoker ctx method req reply
   /\ exists t, snd run = t ++ [CallInvoker method req]
                /\ count isForward t = 0 /\ count isEval t = 1)
  /\ (ok = false ->
      (exists err, fst run = (reply, Some err))
      /\ count isForward (snd run) = 0)
  /\ (buildsInput ctx method req = None ->
      snd run = [] /\ status.Code (snd (fst run)) = codes.Internal).
Proof.
  intros run ok. subst run ok.
  unfold permitted, buildsInput, AuthorizeClient.
  destruct (asProtoMessage req) as [msg|].
  - destruct (NewRPCAuthInput ctx method msg) as [authInput|err].
    + destruct (evalErr (Eval g ctx (Some authInput))) as [e|] eqn:Ee.
      * repeat split; try discriminate; [now exists e|].
        apply Eval_forwards_nothing.
      * repeat split; try discriminate.
        eexists. split; [reflexivity|]. split.
        -- apply Eval_forwards_nothing.
        -- apply Eval_count_eval.
    + repeat split; try discriminate. now eexists.
  - repeat split; try discriminate. now eexists.
Qed.

(** Opening a client stream is not authorized: the streamer is called
    first and is the only call.  When it fails, its error comes back
    wrapped as Internal and there is no stream.  When it succeeds, the
    stream that comes back authorizes each message it is asked to send
    with the authorizer and the method given at opening and the context of
    the stream itself, and closes like the stream it wraps. *)
Theorem AuthorizeClientStream_wraps (Wire : Type) (g : Authorizer)
    (ctx : Context) (method : string) (streamer : Streamer Wire)
    (w : Wire) :
  let run := AuthorizeClientStream g ctx method streamer w in
  snd run = [CallStreamer method]
  /\ snd (fst run) = snd (streamer ctx method w)
  /\ (forall err,
        fst (streamer ctx method w) = inr err ->
        fst (fst run)
        = (None,
           Some (StatusErr codes.Internal
                   ("can't create clientStream: "
                      ++ ErrorString err)%string)))
  /\ (forall cs,
        fst (streamer ctx method w) = inl cs ->
        exists wrapped,
          fst (fst run) = (Some wrapped, None)
          /\ (forall req w',
                sentMessages (snd (SendMsg wrapped req w'))
                = if permitted g (csContext cs) method req
                  then [req] else [])
          /\ (forall w', CloseSend wrapped w' = csCloseSend cs w')).
Proof.
  intro run. subst run. unfold AuthorizeClientStream.
  destruct (streamer ctx method w) as [[cs|err] w1]; cbn [fst snd].
  - repeat split; try discriminate.
    intros cs' [= <-]. eexists. split; [reflexivity|]. split.
    + intros req w'. apply (SendMsg_sent Wire).
    + reflexivity.
  - repeat split; try discriminate.
    now intros err' [= <-].
Qed.

(** The server receive path fails closed: [RecvMsg] on the wrapped stream
    returns [nil] exactly when the underlying receive returned [nil] and
    the message it received passes authorization. *)
Theorem RecvMsg_nil_iff_permitted (Wire : Type) (s : wrappedStream Wire)
    (dest : Value) (w : Wire) :
  let under := ssRecvMsg (wsServerStream s) dest w in
  snd (fst (fst (RecvMsg s dest w))) = None
  <-> snd (fst under) = None
      /\ permitted (wsAuthz s) (ssContext (wsServerStream s))
           (StreamFullMethod (wsInfo s)) (fst (fst under)) = true.
Proof.
  intro under. subst under. unfold RecvMsg, permitted, buildsInput.
  destruct (ssRecvMsg (wsServerStream s) dest w) as [[req1 [rerr|]] w1];
    cbn [fst snd].
  - split; [discriminate|]. intros [H _]. discriminate.
  - destruct (asProtoMessage req1) as [msg|].
    + destruct (NewRPCAuthInput (ssContext (wsServerStream s))
                  (StreamFullMethod (wsInfo s)) msg) as [authInput|err];
        cbn [fst snd].
      * destruct (evalErr (Eval (wsAuthz s) (ssContext (wsServerStream s))
                             (Some authInput))) as [e|].
        -- split; [discriminate|]. intros [_ H]. discriminate.
        -- split; [now split|reflexivity].
      * split; [discriminate|]. intros [_ H]. discriminate.
    + cbn [fst snd]. split; [discriminate|]. intros [_ H]. discriminate.
Qed.

Section ReliableTransport.

Variable Wire : Type.
Variable s : wrappedClientStream Wire.

(** On a transport whose send does not fail, the calls of a sequence of
    sends on one wrapped stream succeed exactly at the messages that pass
    authorization: a refusal fails that call and no other. *)
Theorem SendMsgs_results_follow_messages :
  (forall req w, fst (csSendMsg (wcsClientStream s) req w) = None) ->
  forall reqs w,
    map isNil (fst (fst (SendMsgs s reqs w)))
    = map (sendPermitted s) reqs.
Proof.
  intros Hreliable reqs.
  induction reqs as [|req rest IH]; intro w; [reflexivity|].
  cbn [SendMsgs map].
  destruct (sendPermitted s req) eqn:Eok.
  - destruct (SendMsg_forwarded Wire s req Eok) as (t & _ & Hs).
    rewrite Hs. specialize (Hreliable req w).
    destruct (csSendMsg (wcsClientStream s) req w) as [r w1].
    simpl in Hreliable. subst r. specialize (IH w1).
    destruct (SendMsgs s rest w1) as [[rs w2] t2]. simpl in *.
    now rewrite IH.
  - destruct (SendMsg_refused Wire s req Eok) as (err & t & _ & Hs).
    rewrite Hs. specialize (IH w).
    destruct (SendMsgs s rest w) as [[rs w2] t2]. simpl in *.
    now rewrite IH.
Qed.

End ReliableTransport.

Lemma SendMsgs_results_follow_messages_witness :
  map isNil
    (fst (fst (SendMsgs (Sample.wrappedClient (New Sample.noRm []))
                 [VProto Sample.run; VProto Sample.rm; VProto Sample.run]
                 [])))
  = [true; false; true].
Proof.
  rewrite (SendMsgs_results_follow_messages (list Value)
             (Sample.wrappedClient (New Sample.noRm []))).
  - reflexivity.
  - reflexivity.
Defined.

(** * The command-line clients *)

(** ** Writers *)

Lemma string_app_nil_r (s : string) : (s ++ "")%string = s.
Proof. induction s as [|c s IH]; simpl; [reflexivity|now rewrite IH]. Qed.

Lemma string_app_assoc (a b c : string) :
  ((a ++ b) ++ c)%string = (a ++ b ++ c)%string.
Proof. induction a as [|x a IH]; simpl; [reflexivity|now rewrite IH]. Qed.

Lemma string_length_zero (s : string) :
  Nat.ltb 0 (String.length s) = false <-> s = ""%string.
Proof.
  destruct s; simpl; split; intro H; reflexivity || discriminate.
Qed.

Lemma setNth_length {A : Type} (a : A) (l : list A) :
  forall n, List.length (setNth n a l) = List.length l.
Proof.
  induction l as [|x l IH]; intros [|n]; simpl; try reflexivity.
  now rewrite IH.
Qed.

Lemma nth_error_setNth {A : Type} (a : A) (l : list A) :
  forall n j,
    n < List.length l ->
    nth_error (setNth n a l) j
    = if Nat.eqb j n then Some a else nth_error l j.
Proof.
  induction l as [|x l IH]; intros n j Hn; simpl in Hn; [lia|].
  destruct n as [|n], j as [|j]; simpl; try reflexivity.
  apply IH. lia.
Qed.

Lemma FprintfAt_in_range (ws : list Writer) (idx : Z) (text : string) :
  inRange idx (List.length ws) ->
  exists ws', FprintfAt ws idx text = Some ws'.
Proof.
  intros [Hlo Hhi]. unfold FprintfAt.
  destruct (idx <? 0)%Z eqn:Eneg; [lia|].
  destruct (nth_error ws (Z.to_nat idx)) as [w|] eqn:Hn; [now eexists|].
  apply nth_error_None in Hn. lia.
Qed.

Lemma FprintfAt_out_of_range (ws : list Writer) (idx : Z) (text : string) :
  ~ inRange idx (List.length ws) -> FprintfAt ws idx text = None.
Proof.
  intro Hout. unfold FprintfAt, inRange in *.
  destruct (idx <? 0)%Z eqn:Eneg; [reflexivity|].
  destruct (nth_error ws (Z.to_nat idx)) as [w|] eqn:Hn; [|reflexivity].
  exfalso. apply Hout.
  assert (Z.to_nat idx < List.length ws)
    by (apply nth_error_Some; congruence).
  lia.
Qed.

(** A write at [idx] appends the text to that writer and leaves the others
    and the number of writers as they are. *)
Lemma FprintfAt_writes (ws ws' : list Writer) (idx : Z) (text : string) :
  FprintfAt ws idx text = Some ws' ->
  inRange idx (List.length ws)
  /\ List.length ws' = List.length ws
  /\ forall j,
       nth_error ws' j
       = option_map
           (fun w => (w ++ if (idx =? Z.of_nat j)%Z then text else "")%string)
           (nth_error ws j).
Proof.
  unfold FprintfAt, inRange.
  destruct (idx <? 0)%Z eqn:Eneg; [discriminate|].
  destruct (nth_error ws (Z.to_nat idx)) as [w|] eqn:Hn; [|discriminate].
  intros [= <-].
  assert (Z.to_nat idx < List.length ws) as Hlt
    by (apply nth_error_Some; congruence).
  split; [lia|]. split; [apply setNth_length|].
  intro j. rewrite nth_error_setNth by exact Hlt.
  destruct (Nat.eqb j (Z.to_nat idx)) eqn:Ej.
  - apply Nat.eqb_eq in Ej. subst j. rewrite Hn. simpl.
    replace (idx =? Z.of_nat (Z.to_nat idx))%Z with true
      by (symmetry; apply Z.eqb_eq; lia).
    reflexivity.
  - apply Nat.eqb_neq in Ej.
    replace (idx =? Z.of_nat j)%Z with false
      by (symmetry; apply Z.eqb_neq; lia).
    destruct (nth_error ws j); simpl; [|reflexivity].
    now rewrite string_app_nil_r.
Qed.

Lemma option_map_app (o : option Writer) (a b : string) :
  option_map (fun w => (w ++ b)%string)
    (option_map (fun w => (w ++ a)%string) o)
  = option_map (fun w => (w ++ a ++ b)%string) o.
Proof. destruct o; simpl; [now rewrite string_app_assoc|reflexivity]. Qed.

Lemma option_map_app_nil (o : option Writer) :
  option_map (fun w => (w ++ "")%string) o = o.
Proof. destruct o; simpl; [now rewrite string_app_nil_r|reflexivity]. Qed.

Lemma writers_ext (a b : list Writer) :
  (forall j, nth_error a j = nth_error b j) -> a = b.
Proof.
  revert b. induction a as [|x a IH]; intros [|y b] H.
  - reflexivity.
  - specialize (H 0). discriminate.
  - specialize (H 0). discriminate.
  - f_equal.
    + specialize (H 0). now injection H.
    + apply IH. intro j. exact (H (S j)).
Qed.

Lemma FprintfAt_none (ws : list Writer) (idx : Z) (text : string) :
  FprintfAt ws idx text = None ->
  (idx < 0 \/ Z.of_nat (List.length ws) <= idx)%Z.
Proof.
  intro Hnone.
  destruct (Z_lt_dec idx 0) as [|Hlo]; [now left|].
  destruct (Z_le_dec (Z.of_nat (List.length ws)) idx) as [|Hhi];
    [now right|].
  destruct (FprintfAt_in_range ws idx text) as [ws' Hs];
    [unfold inRange; lia|congruence].
Qed.

Lemma textFor_cons (j : nat) (idx : Z) (text : string)
    (items : list (Z * string)) :
  textFor j ((idx, text) :: items)
  = ((if (idx =? Z.of_nat j)%Z then text else "") ++ textFor j items)%string.
Proof. simpl. now destruct (idx =? Z.of_nat j)%Z. Qed.

(** ** The logging verbosity commands *)

Section LoggingLoop.

Variable onError : logging.ManyResponse -> error -> string.
Variable onReply : logging.ManyResponse -> logging.Reply -> string.

Lemma rangeResponses_writes (resp : list logging.ManyResponse) :
  forall out err code code' out' err',
    logging.rangeResponses onError onReply resp out err code
    = Some (code', (out', err')) ->
    code' = (if logging.anyError resp then subcommands.ExitFailure else code)
    /\ (forall j,
          nth_error out' j
          = option_map
              (fun w =>
                 (w ++ textFor j (logging.outItems onReply resp))%string)
              (nth_error out j))
    /\ (forall j,
          nth_error err' j
          = option_map
              (fun w =>
                 (w ++ textFor j (logging.errItems onError resp))%string)
              (nth_error err j)).
Proof.
  induction resp as [|r rest IH]; intros out err code code' out' err' Hrun.
  - injection Hrun as <- <- <-. simpl.
    repeat split; intro j; now rewrite option_map_app_nil.
  - cbn [logging.rangeResponses] in Hrun.
    cbn [logging.anyError existsb logging.outItems logging.errItems].
    fold (logging.anyError rest).
    destruct (logging.Error r) as [e|].
    + destruct (FprintfAt err (logging.Index r) (onError r e))
        as [err1|] eqn:Hw; [|discriminate].
      cbn [bind] in Hrun.
      destruct (IH _ _ _ _ _ _ Hrun) as (Hc & Ho & He).
      destruct (FprintfAt_writes _ _ _ _ Hw) as (_ & _ & Hnth).
      split; [now destruct (logging.anyError rest)|].
      split; [exact Ho|].
      intro j. rewrite He, Hnth, option_map_app, textFor_cons.
      reflexivity.
    + destruct (logging.Resp r) as [reply|]; [|discriminate].
      cbn [bind] in Hrun.
      destruct (FprintfAt out (logging.Index r) (onReply r reply))
        as [out1|] eqn:Hw; [|discriminate].
      cbn [bind] in Hrun.
      destruct (IH _ _ _ _ _ _ Hrun) as (Hc & Ho & He).
      destruct (FprintfAt_writes _ _ _ _ Hw) as (_ & _ & Hnth).
      split; [exact Hc|]. split; [|exact He].
      intro j. rewrite Ho, Hnth, option_map_app, textFor_cons.
      reflexivity.
Qed.

Lemma rangeResponses_panics (resp : list logging.ManyResponse) :
  forall out err code,
    logging.rangeResponses onError onReply resp out err code = None
    <-> exists r,
          In r resp
          /\ logging.panics (List.length out) (List.length err) r.
Proof.
  induction resp as [|r rest IH]; intros out err code.
  - simpl. split; [discriminate|]. intros (r & [] & _).
  - cbn [logging.rangeResponses].
    assert (forall P : logging.ManyResponse -> Prop,
              ~ P r ->
              (exists r', In r' (r :: rest) /\ P r')
              <-> exists r', In r' rest /\ P r') as Hskip.
    { intros P Hr. split.
      - intros (r' & [<-|Hin] & Hp); [contradiction|now exists r'].
      - intros (r' & Hin & Hp). exists r'. split; [now right|exact Hp]. }
    destruct (logging.Error r) as [e|] eqn:Ee.
    + destruct (FprintfAt err (logging.Index r) (onError r e))
        as [err1|] eqn:Hw; cbn [bind].
      * destruct (FprintfAt_writes _ _ _ _ Hw) as (Hin & Hlen & _).
        rewrite IH, Hlen. symmetry. apply Hskip.
        unfold logging.panics, inRange in *. rewrite Ee. lia.
      * split; [|reflexivity]. intros _. exists r. split; [now left|].
        unfold logging.panics. rewrite Ee.
        exact (FprintfAt_none _ _ _ Hw).
    + destruct (logging.Resp r) as [reply|] eqn:Er; cbn [bind].
      * destruct (FprintfAt out (logging.Index r) (onReply r reply))
          as [out1|] eqn:Hw; cbn [bind].
        -- destruct (FprintfAt_writes _ _ _ _ Hw) as (Hin & Hlen & _).
           rewrite IH, Hlen. symmetry. apply Hskip.
           unfold logging.panics, inRange in *. rewrite Ee, Er.
           intros [H|H]; [discriminate|lia].
        -- split; [|reflexivity]. intros _. exists r. split; [now left|].
           unfold logging.panics. rewrite Ee. right.
           exact (FprintfAt_none _ _ _ Hw).
      * split; [|reflexivity]. intros _. exists r. split; [now left|].
        unfold logging.panics. rewrite Ee. now left.
Qed.

End LoggingLoop.

Lemma errItems_no_error
    (onError : logging.ManyResponse -> error -> string)
    (resp : list logging.ManyResponse) :
  logging.anyError resp = false -> logging.errItems onError resp = [].
Proof.
  induction resp as [|r rest IH]; [reflexivity|].
  unfold logging.anyError in *. simpl.
  destruct (logging.Error r); simpl; [discriminate|exact IH].
Qed.

Lemma rangeResponses_returned
    (onError : logging.ManyResponse -> error -> string)
    (onReply : logging.ManyResponse -> logging.Reply -> string)
    (resp : list logging.ManyResponse)
    (state : ExecuteState logging.LoggingConn)
    (code : subcommands.ExitStatus)
    (st' : ExecuteState logging.LoggingConn) :
  (r <- logging.rangeResponses onError onReply resp (Out state) (Err state)
          subcommands.ExitSuccess ;;
   Some (logging.withWriters state r)) = Some (code, st') ->
  logging.rangeResponses onError onReply resp (Out state) (Err state)
    subcommands.ExitSuccess = Some (code, (Out st', Err st')).
Proof.
  destruct (logging.rangeResponses onError onReply resp (Out state)
              (Err state) subcommands.ExitSuccess) as [[c [o e]]|];
    [|discriminate].
  cbn [bind logging.withWriters fst snd]. now intros [= <- <-].
Qed.

(** The exit status of the two fanned-out verbosity commands, when they
    return: failure when the call itself failed or when at least one
    target's response carries an error, success otherwise. *)
Theorem verbosity_exit_status :
  (forall s state code st',
     logging.setVerbosityExecute s state = Some (code, st') ->
     code
     = match logging.SetVerbosityOneMany (Conn state)
               (int32 (logging.level s)) with
       | inr _ => subcommands.ExitFailure
       | inl resp =>
           if logging.anyError resp then subcommands.ExitFailure
           else subcommands.ExitSuccess
       end)
  /\ (forall state code st',
        logging.getVerbosityExecute state = Some (code, st') ->
        code
        = match logging.GetVerbosityOneMany (Conn state) with
          | inr _ => subcommands.ExitFailure
          | inl resp =>
              if logging.anyError resp then subcommands.ExitFailure
              else subcommands.ExitSuccess
          end).
Proof.
  split.
  - intros s state code st'. unfold logging.setVerbosityExecute.
    destruct (logging.SetVerbosityOneMany (Conn state)
                (int32 (logging.level s))) as [resp|err].
    + destruct (logging.rangeResponses logging.setError logging.setReply
                  resp (Out state) (Err state) subcommands.ExitSuccess)
        as [[c [o e]]|] eqn:Hrun; [|discriminate].
      cbn [bind logging.withWriters fst]. intros [= <- _].
      now destruct (rangeResponses_writes _ _ _ _ _ _ _ _ _ Hrun) as [-> _].
    + now intros [= <- _].
  - intros state code st'. unfold logging.getVerbosityExecute.
    destruct (logging.GetVerbosityOneMany (Conn state)) as [resp|err].
    + destruct (logging.rangeResponses logging.getError logging.getReply
                  resp (Out state) (Err state) subcommands.ExitSuccess)
        as [[c [o e]]|] eqn:Hrun; [|discriminate].
      cbn [bind logging.withWriters fst]. intros [= <- _].
      now destruct (rangeResponses_writes _ _ _ _ _ _ _ _ _ Hrun) as [-> _].
    + now intros [= <- _].
Qed.

Lemma verbosity_exit_status_witness :
  subcommands.ExitFailure
  = match logging.GetVerbosityOneMany
            (Conn (SampleCli.state [SampleCli.ok0; SampleCli.failed1])) with
    | inr _ => subcommands.ExitFailure
    | inl resp =>
        if logging.anyError resp then subcommands.ExitFailure
        else subcommands.ExitSuccess
    end.
Proof.
  eapply (proj2 verbosity_exit_status
            (SampleCli.state [SampleCli.ok0; SampleCli.failed1])
            subcommands.ExitFailure).
  reflexivity.
Defined.

(** What the fanned-out verbosity commands write when the call returned
    responses and the command returns: the output writer of a target
    receives, appended in arrival order, the reply lines of the error-free
    responses carrying that target's index, its error writer the error
    lines of the failed ones, and nothing else is written anywhere. *)
Theorem verbosity_writes_per_target :
  (forall s state resp code st',
     logging.SetVerbosityOneMany (Conn state) (int32 (logging.level s))
     = inl resp ->
     logging.setVerbosityExecute s state = Some (code, st') ->
     forall j,
       nth_error (Out st') j
       = option_map
           (fun w =>
              (w ++ textFor j
                      (logging.outItems logging.setReply resp))%string)
           (nth_error (Out state) j)
       /\ nth_error (Err st') j
          = option_map
              (fun w =>
                 (w ++ textFor j
                         (logging.errItems logging.setError resp))%string)
              (nth_error (Err state) j))
  /\ (forall state resp code st',
        logging.GetVerbosityOneMany (Conn state) = inl resp ->
        logging.getVerbosityExecute state = Some (code, st') ->
        forall j,
          nth_error (Out st') j
          = option_map
              (fun w =>
                 (w ++ textFor j
                         (logging.outItems logging.getReply resp))%string)
              (nth_error (Out state) j)
          /\ nth_error (Err st') j
             = option_map
                 (fun w =>
                    (w ++ textFor j
                            (logging.errItems logging.getError resp))%string)
                 (nth_error (Err state) j)).
Proof.
  split.
  - intros s state resp code st' Hcall. unfold logging.setVerbosityExecute.
    rewrite Hcall.
    destruct (logging.rangeResponses logging.setError logging.setReply
                resp (Out state) (Err state) subcommands.ExitSuccess)
      as [[c [o e]]|] eqn:Hrun; [|discriminate].
    cbn [bind logging.withWriters fst snd]. intros [= _ <-] j.
    destruct (rangeResponses_writes _ _ _ _ _ _ _ _ _ Hrun) as (_ & Ho & He).
    cbn [Out Err]. now split.
  - intros state resp code st' Hcall. unfold logging.getVerbosityExecute.
    rewrite Hcall.
    destruct (logging.rangeResponses logging.getError logging.getReply
                resp (Out state) (Err state) subcommands.ExitSuccess)
      as [[c [o e]]|] eqn:Hrun; [|discriminate].
    cbn [bind logging.withWriters fst snd]. intros [= _ <-] j.
    destruct (rangeResponses_writes _ _ _ _ _ _ _ _ _ Hrun) as (_ & Ho & He).
    cbn [Out Err]. now split.
Qed.

Lemma verbosity_writes_per_target_witness :
  exists code st',
    logging.getVerbosityExecute
      (SampleCli.state [SampleCli.ok0; SampleCli.failed1])
    = Some (code, st')
    /\ nth_error (Out st') 0
       = Some ("Target host-a (0) current logging level 2" ++ newline)%string
    /\ nth_error (Out st') 1 = Some ""%string.
Proof.
  eexists. eexists. split; [reflexivity|].
  split.
  - rewrite (proj1 (proj2 verbosity_writes_per_target
                      (SampleCli.state [SampleCli.ok0; SampleCli.failed1])
                      [SampleCli.ok0; SampleCli.failed1] _ _
                      eq_refl eq_refl 0)).
    reflexivity.
  - rewrite (proj1 (proj2 verbosity_writes_per_target
                      (SampleCli.state [SampleCli.ok0; SampleCli.failed1])
                      [SampleCli.ok0; SampleCli.failed1] _ _
                      eq_refl eq_refl 1)).
    reflexivity.
Defined.

(** A run of a fanned-out verbosity command that ends in success has
    written to no error writer. *)
Theorem verbosity_success_leaves_error_writers :
  (forall s state st',
     logging.setVerbosityExecute s state
     = Some (subcommands.ExitSuccess, st') ->
     Err st' = Err state)
  /\ (forall state st',
        logging.getVerbosityExecute state
        = Some (subcommands.ExitSuccess, st') ->
        Err st' = Err state).
Proof.
  split.
  - intros s state st'. unfold logging.setVerbosityExecute.
    destruct (logging.SetVerbosityOneMany (Conn state)
                (int32 (logging.level s))) as [resp|err];
      [|discriminate].
    intro Hrun. apply rangeResponses_returned in Hrun.
    destruct (rangeResponses_writes _ _ _ _ _ _ _ _ _ Hrun) as (Hc & _ & He).
    destruct (logging.anyError resp) eqn:Hany; [discriminate|].
    apply writers_ext. intro j.
    rewrite He, (errItems_no_error _ _ Hany). apply option_map_app_nil.
  - intros state st'. unfold logging.getVerbosityExecute.
    destruct (logging.GetVerbosityOneMany (Conn state)) as [resp|err];
      [|discriminate].
    intro Hrun. apply rangeResponses_returned in Hrun.
    destruct (rangeResponses_writes _ _ _ _ _ _ _ _ _ Hrun) as (Hc & _ & He).
    destruct (logging.anyError resp) eqn:Hany; [discriminate|].
    apply writers_ext. intro j.
    rewrite He, (errItems_no_error _ _ Hany). apply option_map_app_nil.
Qed.

Lemma verbosity_success_leaves_error_writers_witness :
  exists st',
    logging.setVerbosityExecute {| logging.level := 1 |}
      (SampleCli.state [SampleCli.ok0])
    = Some (subcommands.ExitSuccess, st')
    /\ Err st' = [""%string; ""%string].
Proof.
  eexists. split; [reflexivity|].
  apply (proj1 verbosity_success_leaves_error_writers
           {| logging.level := 1 |} (SampleCli.state [SampleCli.ok0])).
  reflexivity.
Defined.

(** The fanned-out verbosity commands panic exactly when the call returned
    responses and one of them addresses a writer that does not exist (an
    error response the error writers, a reply the output writers) or
    carries neither an error nor a reply.  A failed call never panics. *)
Theorem verbosity_panics_iff :
  (forall s state,
     logging.setVerbosityExecute s state = None
     <-> exists resp r,
           logging.SetVerbosityOneMany (Conn state)
             (int32 (logging.level s)) = inl resp
           /\ In r resp
           /\ logging.panics (List.length (Out state))
                (List.length (Err state)) r)
  /\ (forall state,
        logging.getVerbosityExecute state = None
        <-> exists resp r,
              logging.GetVerbosityOneMany (Conn state) = inl resp
              /\ In r resp
              /\ logging.panics (List.length (Out state))
                   (List.length (Err state)) r).
Proof.
  assert (forall onE onR resp (state : ExecuteState logging.LoggingConn),
            (r <- logging.rangeResponses onE onR resp (Out state)
                    (Err state) subcommands.ExitSuccess ;;
             Some (logging.withWriters state r)) = None
            <-> exists r,
                  In r resp
                  /\ logging.panics (List.length (Out state))
                       (List.length (Err state)) r) as Hloop.
  { intros onE onR resp state.
    rewrite <- (rangeResponses_panics onE onR resp (Out state) (Err state)
                  subcommands.ExitSuccess).
    destruct (logging.rangeResponses onE onR resp (Out state) (Err state)
                subcommands.ExitSuccess); cbn [bind];
      split; intro; reflexivity || discriminate. }
  split.
  - intros s state. unfold logging.setVerbosityExecute.
    destruct (logging.SetVerbosityOneMany (Conn state)
                (int32 (logging.level s))) as [resp|err].
    + rewrite Hloop. split.
      * intros (r & Hin & Hp). now exists resp, r.
      * intros (resp' & r & [= <-] & Hin & Hp). now exists r.
    + split; [discriminate|]. intros (resp & r & Hc & _). discriminate.
  - intros state. unfold logging.getVerbosityExecute.
    destruct (logging.GetVerbosityOneMany (Conn state)) as [resp|err].
    + rewrite Hloop. split.
      * intros (r & Hin & Hp). now exists resp, r.
      * intros (resp' & r & [= <-] & Hin & Hp). now exists r.
    + split; [discriminate|]. intros (resp & r & Hc & _). discriminate.
Qed.






Lemma FprintfAt_zero (ws : list Writer) (text : string) :
  FprintfAt ws 0 text
  = match ws with
    | [] => None
    | w :: rest => Some ((w ++ text)%string :: rest)
    end.
Proof. now destruct ws. Qed.

(** The two proxy commands write to the writers of index 0 only, whatever
    the number of targets (with more than one they warn on the standard
    error and go on).  An error of the call ends in failure with one line
    on the first error writer and the output writers untouched; a reply
    ends in success with one line on the first output writer and the
    error writers untouched.  They panic exactly when the writer they
    need is missing. *)
Theorem proxy_verbosity_outcome :
  (forall s state stderr,
     let call :=
       logging.ProxySetVerbosity (Conn state) (int32 (logging.level s)) in
     let run := logging.setProxyVerbosityExecute s state stderr in
     (fst run = None
      <-> match call with
          | inr _ => Err state = []
          | inl _ => Out state = []
          end)
     /\ (forall code st',
           fst run = Some (code, st') ->
           tl (Out st') = tl (Out state)
           /\ tl (Err st') = tl (Err state)
           /\ match call with
              | inr _ =>
                  code = subcommands.ExitFailure /\ Out st' = Out state
                  /\ List.length (Err st') = List.length (Err state)
              | inl _ =>
                  code = subcommands.ExitSuccess /\ Err st' = Err state
                  /\ List.length (Out st') = List.length (Out state)
              end))
  /\ (forall state stderr,
        let call := logging.ProxyGetVerbosity (Conn state) in
        let run := logging.getProxyVerbosityExecute state stderr in
        (fst run = None
         <-> match call with
             | inr _ => Err state = []
             | inl _ => Out state = []
             end)
        /\ (forall code st',
              fst run = Some (code, st') ->
              tl (Out st') = tl (Out state)
              /\ tl (Err st') = tl (Err state)
              /\ match call with
                 | inr _ =>
                     code = subcommands.ExitFailure /\ Out st' = Out state
                     /\ List.length (Err st') = List.length (Err state)
                 | inl _ =>
                     code = subcommands.ExitSuccess /\ Err st' = Err state
                     /\ List.length (Out st') = List.length (Out state)
                 end))
  /\ (forall s state stderr,
        1 < List.length (Out state) ->
        snd (logging.setProxyVerbosityExecute s state stderr)
        = (stderr ++ "can't call proxy logging with multiple targets")%string
        /\ snd (logging.getProxyVerbosityExecute state stderr)
           = (stderr
                ++ "can't call proxy logging with multiple targets")%string).
Proof.
  assert (forall onE onR call (state : ExecuteState logging.LoggingConn),
            (logging.renderProxy onE onR call state = None
             <-> match call with
                 | inr _ => Err state = []
                 | inl _ => Out state = []
                 end)
            /\ (forall code st',
                  logging.renderProxy onE onR call state = Some (code, st') ->
                  tl (Out st') = tl (Out state)
                  /\ tl (Err st') = tl (Err state)
                  /\ match call with
                     | inr _ =>
                         code = subcommands.ExitFailure
                         /\ Out st' = Out state
                         /\ List.length (Err st') = List.length (Err state)
                     | inl _ =>
                         code = subcommands.ExitSuccess
                         /\ Err st' = Err state
                         /\ List.length (Out st') = List.length (Out state)
                     end)) as Hrender.
  { intros onE onR call state. unfold logging.renderProxy.
    destruct call as [reply|err]; rewrite FprintfAt_zero.
    - destruct (Out state) as [|w rest]; cbn [bind].
      + split; [now split|discriminate].
      + split; [split; discriminate|].
        intros code st' [= <- <-]. cbn [Out Err tl List.length].
        repeat split.
    - destruct (Err state) as [|w rest]; cbn [bind].
      + split; [now split|discriminate].
      + split; [split; discriminate|].
        intros code st' [= <- <-]. cbn [Out Err tl List.length].
        repeat split. }
  repeat apply conj.
  - intros s state stderr call run. apply Hrender.
  - intros state stderr call run. apply Hrender.
  - intros s state stderr Hmany.
    unfold logging.setProxyVerbosityExecute,
      logging.getProxyVerbosityExecute, logging.warnMultipleTargets.
    cbn [snd]. apply Nat.ltb_lt in Hmany. now rewrite Hmany.
Qed.

Lemma proxy_verbosity_outcome_witness :
  exists st',
    fst (logging.getProxyVerbosityExecute (SampleCli.state []) ""%string)
    = Some (subcommands.ExitFailure, st')
    /\ tl (Err st') = [""%string]
    /\ Out st' = [""%string; ""%string].
Proof.
  eexists. split; [reflexivity|].
  destruct (proj2 (proj1 (proj2 proxy_verbosity_outcome)
                     (SampleCli.state []) ""%string) _ _ eq_refl)
    as (_ & Htl & _ & Hout & _).
  split; [exact Htl|exact Hout].
Defined.

(** ** The run command *)

(** The write of a response's standard error, made only when it is not
    empty, has the effect of appending it in either case. *)
Lemma stderr_write (err err1 : list Writer) (idx : Z) (text : string) :
  (if Nat.ltb 0 (String.length text) then FprintfAt err idx text
   else Some err) = Some err1 ->
  List.length err1 = List.length err
  /\ forall j,
       nth_error err1 j
       = option_map
           (fun w => (w ++ if (idx =? Z.of_nat j)%Z then text else "")%string)
           (nth_error err j).
Proof.
  destruct (Nat.ltb 0 (String.length text)) eqn:Elen.
  - intro Hw. destruct (FprintfAt_writes _ _ _ _ Hw) as (_ & Hl & Hn).
    now split.
  - apply string_length_zero in Elen. subst text. intros [= <-].
    split; [reflexivity|]. intro j.
    destruct (idx =? Z.of_nat j)%Z; now rewrite option_map_app_nil.
Qed.

Lemma rangeRun_writes (resp : list exec.RunManyResponse) :
  forall out err code code' out' err',
    exec.rangeRun resp out err code = Some (code', (out', err')) ->
    code' = (if exec.anyError resp then subcommands.ExitFailure else code)
    /\ (forall j,
          nth_error out' j
          = option_map
              (fun w => (w ++ textFor j (exec.outItems resp))%string)
              (nth_error out j))
    /\ (forall j,
          nth_error err' j
          = option_map
              (fun w => (w ++ textFor j (exec.errItems resp))%string)
              (nth_error err j)).
Proof.
  induction resp as [|r rest IH]; intros out err code code' out' err' Hrun.
  - injection Hrun as <- <- <-. simpl.
    repeat split; intro j; now rewrite option_map_app_nil.
  - cbn [exec.rangeRun] in Hrun.
    cbn [exec.anyError existsb exec.outItems exec.errItems].
    fold (exec.anyError rest).
    destruct (exec.Resp r) as [reply|]; [|discriminate].
    cbn [bind] in Hrun.
    destruct (if Nat.ltb 0 (String.length (exec.Stderr reply))
              then FprintfAt err (exec.Index r) (exec.Stderr reply)
              else Some err) as [err1|] eqn:Hw1; [|discriminate].
    cbn [bind] in Hrun.
    destruct (stderr_write _ _ _ _ Hw1) as (_ & Hn1).
    destruct (exec.Error r) as [e|].
    + destruct (FprintfAt err1 (exec.Index r) (exec.runError r e))
        as [err2|] eqn:Hw2; [|discriminate].
      cbn [bind] in Hrun.
      destruct (IH _ _ _ _ _ _ Hrun) as (Hc & Ho & He).
      destruct (FprintfAt_writes _ _ _ _ Hw2) as (_ & _ & Hn2).
      split; [now destruct (exec.anyError rest)|].
      split; [exact Ho|].
      intro j. rewrite He, Hn2, Hn1, !option_map_app, textFor_cons.
      destruct (exec.Index r =? Z.of_nat j)%Z; [|reflexivity].
      destruct (nth_error err j); simpl; [|reflexivity].
      now rewrite (string_app_assoc (exec.Stderr reply)).
    + destruct (FprintfAt out (exec.Index r) (exec.Stdout reply))
        as [out1|] eqn:Hw2; [|discriminate].
      cbn [bind] in Hrun.
      destruct (IH _ _ _ _ _ _ Hrun) as (Hc & Ho & He).
      destruct (FprintfAt_writes _ _ _ _ Hw2) as (_ & _ & Hn2).
      split; [exact Hc|]. split.
      * intro j. rewrite Ho, Hn2, option_map_app, textFor_cons.
        reflexivity.
      * intro j. rewrite He, Hn1, option_map_app, textFor_cons.
        now rewrite string_app_nil_r.
Qed.

Lemma stderr_write_none (err : list Writer) (idx : Z) (text : string) :
  (if Nat.ltb 0 (String.length text) then FprintfAt err idx text
   else Some err) = None ->
  text <> ""%string /\ (idx < 0 \/ Z.of_nat (List.length err) <= idx)%Z.
Proof.
  destruct (Nat.ltb 0 (String.length text)) eqn:Elen; [|discriminate].
  intro Hw. split; [|exact (FprintfAt_none _ _ _ Hw)].
  intros ->. discriminate.
Qed.

Lemma stderr_write_some (err err1 : list Writer) (idx : Z) (text : string) :
  (if Nat.ltb 0 (String.length text) then FprintfAt err idx text
   else Some err) = Some err1 ->
  ~ (text <> ""%string
     /\ (idx < 0 \/ Z.of_nat (List.length err) <= idx)%Z).
Proof.
  destruct (Nat.ltb 0 (String.length text)) eqn:Elen.
  - intros Hw [_ Hout].
    destruct (FprintfAt_writes _ _ _ _ Hw) as (Hin & _).
    unfold inRange in Hin. lia.
  - apply string_length_zero in Elen. intros _ [Hne _]. contradiction.
Qed.

Lemma rangeRun_panics (resp : list exec.RunManyResponse) :
  forall out err code,
    exec.rangeRun resp out err code = None
    <-> exists r,
          In r resp /\ exec.panics (List.length out) (List.length err) r.
Proof.
  induction resp as [|r rest IH]; intros out err code.
  - simpl. split; [discriminate|]. intros (r & [] & _).
  - cbn [exec.rangeRun].
    assert (forall P : exec.RunManyResponse -> Prop,
              ~ P r ->
              (exists r', In r' (r :: rest) /\ P r')
              <-> exists r', In r' rest /\ P r') as Hskip.
    { intros P Hr. split.
      - intros (r' & [<-|Hin] & Hp); [contradiction|now exists r'].
      - intros (r' & Hin & Hp). exists r'. split; [now right|exact Hp]. }
    assert (forall P : exec.RunManyResponse -> Prop,
              P r ->
              @None (subcommands.ExitStatus * (list Writer * list Writer))
              = None
              <-> exists r', In r' (r :: rest) /\ P r') as Hhere.
    { intros P Hr. split; [|reflexivity]. intros _. exists r.
      split; [now left|exact Hr]. }
    destruct (exec.Resp r) as [reply|] eqn:Er; cbn [bind].
    2: { apply Hhere. unfold exec.panics. now rewrite Er. }
    destruct (if Nat.ltb 0 (String.length (exec.Stderr reply))
              then FprintfAt err (exec.Index r) (exec.Stderr reply)
              else Some err) as [err1|] eqn:Hw1; cbn [bind].
    2: { apply Hhere. unfold exec.panics. rewrite Er.
         destruct (stderr_write_none _ _ _ Hw1) as [Hne Hout].
         destruct (exec.Error r); [exact Hout|left; now split]. }
    destruct (stderr_write _ _ _ _ Hw1) as (Hlen1 & _).
    pose proof (stderr_write_some _ _ _ _ Hw1) as Hnot.
    destruct (exec.Error r) as [e|] eqn:Ee.
    + destruct (FprintfAt err1 (exec.Index r) (exec.runError r e))
        as [err2|] eqn:Hw2; cbn [bind].
      * destruct (FprintfAt_writes _ _ _ _ Hw2) as (Hin & Hlen2 & _).
        rewrite IH, Hlen2, Hlen1. symmetry. apply Hskip.
        unfold exec.panics, inRange in *. rewrite Er, Ee. lia.
      * apply Hhere. unfold exec.panics. rewrite Er, Ee.
        rewrite <- Hlen1. exact (FprintfAt_none _ _ _ Hw2).
    + destruct (FprintfAt out (exec.Index r) (exec.Stdout reply))
        as [out1|] eqn:Hw2; cbn [bind].
      * destruct (FprintfAt_writes _ _ _ _ Hw2) as (Hin & Hlen2 & _).
        rewrite IH, Hlen2, Hlen1. symmetry. apply Hskip.
        unfold exec.panics, inRange in *. rewrite Er, Ee.
        intros [H|H]; [now apply Hnot|lia].
      * apply Hhere. unfold exec.panics. rewrite Er, Ee. right.
        exact (FprintfAt_none _ _ _ Hw2).
Qed.

Lemma rangeRun_returned (resp : list exec.RunManyResponse)
    (state : ExecuteState exec.ExecConn) (code : subcommands.ExitStatus)
    (st' : ExecuteState exec.ExecConn) :
  (r <- exec.rangeRun resp (Out state) (Err state)
          subcommands.ExitSuccess ;;
   Some (fst r, {| Conn := Conn state; Out := fst (snd r);
                   Err := snd (snd r) |})) = Some (code, st') ->
  exec.rangeRun resp (Out state) (Err state) subcommands.ExitSuccess
  = Some (code, (Out st', Err st')).
Proof.
  destruct (exec.rangeRun resp (Out state) (Err state)
              subcommands.ExitSuccess) as [[c [o e]]|]; [|discriminate].
  cbn [bind fst snd]. now intros [= <- <-].
Qed.

Lemma rangeRun_ignores_RetCode (c : Z) (resp : list exec.RunManyResponse) :
  forall out err code,
    exec.rangeRun (map (exec.withRetCode c) resp) out err code
    = exec.rangeRun resp out err code.
Proof.
  induction resp as [|r rest IH]; intros out err code; [reflexivity|].
  cbn [map exec.rangeRun exec.withRetCode exec.Resp exec.Error exec.Index].
  destruct (exec.Resp r) as [reply|]; [|reflexivity].
  cbn [option_map bind exec.Stderr exec.Stdout].
  destruct (if Nat.ltb 0 (String.length (exec.Stderr reply))
            then FprintfAt err (exec.Index r) (exec.Stderr reply)
            else Some err) as [err1|]; [|reflexivity].
  cbn [bind].
  destruct (exec.Error r) as [e|].
  - change (exec.runError (exec.withRetCode c r) e)
      with (exec.runError r e).
    destruct (FprintfAt err1 (exec.Index r) (exec.runError r e));
      [|reflexivity].
    cbn [bind]. apply IH.
  - destruct (FprintfAt out (exec.Index r) (exec.Stdout reply));
      [|reflexivity].
    cbn [bind]. apply IH.
Qed.

(** The exit status of the run command, when it returns: a usage error
    when no command is given (nothing is called and no target writer is
    touched), failure when the call failed or a response carries an error,
    success otherwise.  The request carries the first argument as the
    command and the others as its arguments. *)
Theorem run_exit_status (args : list string)
    (state : ExecuteState exec.ExecConn) (stderr : Writer)
    (code : subcommands.ExitStatus) (st' : ExecuteState exec.ExecConn) :
  fst (exec.runExecute args state stderr) = Some (code, st') ->
  match args with
  | [] =>
      code = subcommands.ExitUsageError /\ st' = state
      /\ snd (exec.runExecute args state stderr)
         = (stderr ++ "Please specify a command to execute."
              ++ newline)%string
  | command :: rest =>
      snd (exec.runExecute args state stderr) = stderr
      /\ code
         = match exec.RunOneMany (Conn state)
                   {| exec.Command := command; exec.Args := rest |} with
           | inr _ => subcommands.ExitFailure
           | inl resp =>
               if exec.anyError resp then subcommands.ExitFailure
               else subcommands.ExitSuccess
           end
  end.
Proof.
  unfold exec.runExecute. destruct args as [|command rest]; cbn [fst snd].
  - now intros [= <- <-].
  - intro Hrun. split; [reflexivity|].
    destruct (exec.RunOneMany (Conn state)
                {| exec.Command := command; exec.Args := rest |})
      as [resp|err].
    + apply rangeRun_returned in Hrun.
      now destruct (rangeRun_writes _ _ _ _ _ _ _ Hrun) as [-> _].
    + now injection Hrun as <- _.
Qed.

Lemma run_exit_status_witness :
  snd (exec.runExecute ["uptime"%string]
         (SampleCli.execState [SampleCli.ran0]) ""%string) = ""%string
  /\ subcommands.ExitSuccess
     = match exec.RunOneMany (Conn (SampleCli.execState [SampleCli.ran0]))
               {| exec.Command := "uptime"; exec.Args := [] |} with
       | inr _ => subcommands.ExitFailure
       | inl resp =>
           if exec.anyError resp then subcommands.ExitFailure
           else subcommands.ExitSuccess
       end.
Proof.
  eapply (run_exit_status ["uptime"%string]
            (SampleCli.execState [SampleCli.ran0]) ""%string
            subcommands.ExitSuccess).
  reflexivity.
Defined.

(** The return code the targets report plays no part in the run command:
    the exit status and everything written are the same whatever the
    return codes in the responses. *)
Theorem run_ignores_return_code (c : Z) (args : list string)
    (state : ExecuteState exec.ExecConn) (stderr : Writer) :
  exec.shown
    (fst (exec.runExecute args (exec.stateWithRetCode c state) stderr))
  = exec.shown (fst (exec.runExecute args state stderr))
  /\ snd (exec.runExecute args (exec.stateWithRetCode c state) stderr)
     = snd (exec.runExecute args state stderr).
Proof.
  unfold exec.runExecute. destruct args as [|command rest]; cbn [fst snd].
  - now split.
  - split; [|reflexivity].
    cbn [exec.stateWithRetCode Conn Out Err exec.RunOneMany].
    destruct (exec.RunOneMany (Conn state)
                {| exec.Command := command; exec.Args := rest |})
      as [resp|err]; [|reflexivity].
    rewrite rangeRun_ignores_RetCode.
    now destruct (exec.rangeRun resp (Out state) (Err state)
                    subcommands.ExitSuccess) as [[code [o e]]|].
Qed.

(** What the run command writes when the call returned responses and the
    command returns: the output writer of a target receives, in arrival
    order, the standard output of the error-free responses carrying that
    target's index; its error writer receives the standard error of every
    response with that index, each followed by the failure line when the
    response carries an error.  The standard output of a failed response
    is written nowhere. *)
Theorem run_writes_per_target (command : string) (rest : list string)
    (state : ExecuteState exec.ExecConn) (stderr : Writer)
    (resp : list exec.RunManyResponse)
    (code : subcommands.ExitStatus) (st' : ExecuteState exec.ExecConn) :
  exec.RunOneMany (Conn state)
    {| exec.Command := command; exec.Args := rest |} = inl resp ->
  fst (exec.runExecute (command :: rest) state stderr) = Some (code, st') ->
  forall j,
    nth_error (Out st') j
    = option_map (fun w => (w ++ textFor j (exec.outItems resp))%string)
        (nth_error (Out state) j)
    /\ nth_error (Err st') j
       = option_map (fun w => (w ++ textFor j (exec.errItems resp))%string)
           (nth_error (Err state) j).
Proof.
  intros Hcall. unfold exec.runExecute. cbn [fst]. rewrite Hcall.
  intros Hrun j. apply rangeRun_returned in Hrun.
  destruct (rangeRun_writes _ _ _ _ _ _ _ Hrun) as (_ & Ho & He).
  now split.
Qed.

Lemma run_writes_per_target_witness :
  exists code st',
    fst (exec.runExecute ["uptime"%string]
           (SampleCli.execState [SampleCli.ran0]) ""%string)
    = Some (code, st')
    /\ nth_error (Out st') 0 = Some "ok"%string
    /\ nth_error (Err st') 0 = Some "warn"%string.
Proof.
  eexists. eexists. split; [reflexivity|].
  destruct (run_writes_per_target "uptime"%string []
              (SampleCli.execState [SampleCli.ran0]) ""%string
              [SampleCli.ran0] _ _ eq_refl eq_refl 0) as [Ho He].
  split; [exact Ho|exact He].
Defined.

(** The run command panics exactly when a command is given, the call
    returned responses and one of them has no [Resp] (also when it carries
    an error: its standard error is read before the error is looked at) or
    addresses a writer that does not exist. *)
Theorem run_panics_iff (args : list string)
    (state : ExecuteState exec.ExecConn) (stderr : Writer) :
  fst (exec.runExecute args state stderr) = None
  <-> exists command rest resp r,
        args = command :: rest
        /\ exec.RunOneMany (Conn state)
             {| exec.Command := command; exec.Args := rest |} = inl resp
        /\ In r resp
        /\ exec.panics (List.length (Out state)) (List.length (Err state)) r.
Proof.
  unfold exec.runExecute. destruct args as [|command rest]; cbn [fst].
  - split; [discriminate|]. intros (c & a & resp & r & Habs & _).
    discriminate.
  - destruct (exec.RunOneMany (Conn state)
                {| exec.Command := command; exec.Args := rest |})
      as [resp|err] eqn:Hcall.
    + pose proof (rangeRun_panics resp (Out state) (Err state)
                    subcommands.ExitSuccess) as Hp.
      destruct (exec.rangeRun resp (Out state) (Err state)
                  subcommands.ExitSuccess) as [res|]; cbn [bind].
      * split; [discriminate|].
        intros (c & a & resp' & r & [= <- <-] & Hc & Hin & Hpan).
        rewrite Hcall in Hc. injection Hc as <-.
        assert (Some res = None) by (apply Hp; now exists r).
        discriminate.
      * split; [|reflexivity]. intros _.
        destruct (proj1 Hp eq_refl) as (r & Hin & Hpan).
        now exists command, rest, resp, r.
    + split; [discriminate|].
      intros (c & a & resp & r & [= <- <-] & Hc & _).
      rewrite Hcall in Hc. discriminate.
Qed.

Example run_panics_on_response_without_Resp :
  fst (exec.runExecute ["uptime"%string]
         (SampleCli.execState [SampleCli.ran0; SampleCli.lost1]) ""%string)
  = None.
Proof. reflexivity. Qed.

Example verbosity_renders_response_without_Resp :
  option_map fst
    (logging.getVerbosityExecute
       (SampleCli.state [SampleCli.ok0; SampleCli.failed1]))
  = Some subcommands.ExitFailure
  /\ logging.getVerbosityExecute (SampleCli.state [SampleCli.stray]) = None.
Proof. split; reflexivity. Qed.

Example formatInt_samples :
  formatInt 0 = "0"%string /\ formatInt 42 = "42"%string
  /\ formatInt (-7) = "-7"%string.
Proof. repeat split. Qed.

Example int32_samples :
  int32 (2 ^ 31) = (- 2 ^ 31)%Z /\ int32 (2 ^ 32 + 5) = 5%Z
  /\ int32 (-1) = (-1)%Z.
Proof. repeat split. Qed.

Lemma Authorize_gates_handler_witness :
  fst (Authorize (New Sample.noRm []) Sample.ctx (VProto Sample.run)
         Sample.info Sample.handler)
  = Sample.handler Sample.ctx (VProto Sample.run)
  /\ count isForward
       (snd (Authorize (New Sample.noRm []) Sample.ctx (VProto Sample.rm)
               Sample.info Sample.handler)) = 0.
Proof.
  split.
  - apply (proj1 (Authorize_gates_handler (New Sample.noRm []) Sample.ctx
                    (VProto Sample.run) Sample.info Sample.handler)).
    reflexivity.
  - apply (proj1 (proj2 (Authorize_gates_handler (New Sample.noRm [])
                           Sample.ctx (VProto Sample.rm) Sample.info
                           Sample.handler))).
    reflexivity.
Defined.

Lemma AuthorizeClient_gates_invoker_witness :
  fst (AuthorizeClient (New Sample.noRm []) Sample.ctx "/Exec.Exec/Run"
         (VProto Sample.run) (VOther "<nil>") Sample.invoker)
  = Sample.invoker Sample.ctx "/Exec.Exec/Run" (VProto Sample.run)
      (VOther "<nil>")
  /\ count isForward
       (snd (AuthorizeClient (New Sample.noRm []) Sample.ctx
               "/Exec.Exec/Run" (VProto Sample.rm) (VOther "<nil>")
               Sample.invoker)) = 0.
Proof.
  split.
  - apply (proj1 (AuthorizeClient_gates_invoker (New Sample.noRm [])
                    Sample.ctx "/Exec.Exec/Run" (VProto Sample.run)
                    (VOther "<nil>") Sample.invoker)).
    reflexivity.
  - apply (proj1 (proj2 (AuthorizeClient_gates_invoker (New Sample.noRm [])
                           Sample.ctx "/Exec.Exec/Run" (VProto Sample.rm)
                           (VOther "<nil>") Sample.invoker))).
    reflexivity.
Defined.

Lemma AuthorizeClientStream_wraps_witness :
  fst (fst (AuthorizeClientStream (New Sample.noRm []) Sample.ctx
              "/Exec.Exec/Run"
              (fun _ _ (w : list Value) => (inr (PlainErr "refused"), w))
              []))
  = (None,
     Some (StatusErr codes.Internal "can't create clientStream: refused")).
Proof.
  apply (proj1 (proj2 (proj2
           (AuthorizeClientStream_wraps (list Value) (New Sample.noRm [])
              Sample.ctx "/Exec.Exec/Run"
              (fun _ _ (w : list Value) => (inr (PlainErr "refused"), w))
              []))) (PlainErr "refused")).
  reflexivity.
Defined.
